(** * The HomeSwift API request pipeline (server/server.js)

    A shallow embedding of the Express application that server.js builds:
    the CORS origin policy, the ordered middleware stack, the rate limiter,
    the in-memory session stage, the fixed endpoints, the not-found fallback
    and the two error handlers, together with the routing rules of the
    Express 4 router that runs them. *)

From Stdlib Require Import ZArith Lia Ascii String List Bool.
From stdpp Require Import base tactics option list strings gmap pretty.
Import ListNotations.
Set Warnings "-register-all".
Open Scope string_scope.
Open Scope list_scope.
Open Scope Z_scope.

(** ** Characters and strings *)

Definition is_digit (c : ascii) : bool :=
  ((48 <=? Z.of_nat (nat_of_ascii c)) && (Z.of_nat (nat_of_ascii c) <=? 57))%Z.

Definition is_upper (c : ascii) : bool :=
  ((65 <=? Z.of_nat (nat_of_ascii c)) && (Z.of_nat (nat_of_ascii c) <=? 90))%Z.

Definition is_lower (c : ascii) : bool :=
  ((97 <=? Z.of_nat (nat_of_ascii c)) && (Z.of_nat (nat_of_ascii c) <=? 122))%Z.

(** Canonicalisation of one code unit under the [i] flag of a RegExp without
    the [u] flag: ASCII letters go to upper case, everything else stays. *)
Definition canonicalize (c : ascii) : ascii :=
  if is_lower c then ascii_of_nat (nat_of_ascii c - 32) else c.

Fixpoint canonicalize_string (s : string) : string :=
  match s with
  | EmptyString => EmptyString
  | String c s' => String (canonicalize c) (canonicalize_string s')
  end.

Fixpoint all_digits (s : string) : bool :=
  match s with
  | EmptyString => true
  | String c s' => is_digit c && all_digits s'
  end.

(** ** Regular expressions

    The fragment of JavaScript regular expressions that server.js and
    path-to-regexp use: literals, [\d], any code unit, sequence,
    alternative and repetition. Anchors are flags of the whole pattern. *)

Inductive re : Type :=
| RNone
| REps
| RChr (c : ascii)
| RDigit
| RAny
| RCat (r1 r2 : re)
| RAlt (r1 r2 : re)
| RStar (r : re).

Definition ROpt (r : re) : re := RAlt r REps.
Definition RPlus (r : re) : re := RCat r (RStar r).

Fixpoint RLit (s : string) : re :=
  match s with
  | EmptyString => REps
  | String c s' => RCat (RChr c) (RLit s')
  end.

(** The strings a pattern body denotes. *)
Inductive re_lang : re -> string -> Prop :=
| lang_eps : re_lang REps ""
| lang_chr c : re_lang (RChr c) (String c "")
| lang_digit c : is_digit c = true -> re_lang RDigit (String c "")
| lang_any c : re_lang RAny (String c "")
| lang_cat r1 r2 s1 s2 :
    re_lang r1 s1 -> re_lang r2 s2 -> re_lang (RCat r1 r2) (s1 +:+ s2)
| lang_alt_l r1 r2 s : re_lang r1 s -> re_lang (RAlt r1 r2) s
| lang_alt_r r1 r2 s : re_lang r2 s -> re_lang (RAlt r1 r2) s
| lang_star_nil r : re_lang (RStar r) ""
| lang_star_app r s1 s2 :
    re_lang r s1 -> re_lang (RStar r) s2 -> re_lang (RStar r) (s1 +:+ s2).

Fixpoint nullable (r : re) : bool :=
  match r with
  | RNone => false
  | REps => true
  | RChr _ => false
  | RDigit => false
  | RAny => false
  | RCat r1 r2 => nullable r1 && nullable r2
  | RAlt r1 r2 => nullable r1 || nullable r2
  | RStar _ => true
  end.

(** What is left of a pattern once the code unit [a] has been read. *)
Fixpoint deriv (a : ascii) (r : re) : re :=
  match r with
  | RNone => RNone
  | REps => RNone
  | RChr c => if Ascii.eqb c a then REps else RNone
  | RDigit => if is_digit a then REps else RNone
  | RAny => REps
  | RCat r1 r2 =>
      if nullable r1 then RAlt (RCat (deriv a r1) r2) (deriv a r2)
      else RCat (deriv a r1) r2
  | RAlt r1 r2 => RAlt (deriv a r1) (deriv a r2)
  | RStar r1 => RCat (deriv a r1) (RStar r1)
  end.

(** The whole string is matched by the pattern body. *)
Fixpoint re_match (r : re) (s : string) : bool :=
  match s with
  | EmptyString => nullable r
  | String a s' => re_match (deriv a r) s'
  end.

(** A RegExp object: the body, whether it opens with [^], whether it closes
    with [$], and the [i] flag. *)
Record RegExp : Type := mkRegExp {
  re_from_start : bool;
  re_body : re;
  re_to_end : bool;
  re_ignore_case : bool
}.

Fixpoint re_canonicalize (r : re) : re :=
  match r with
  | RChr c => RChr (canonicalize c)
  | RCat r1 r2 => RCat (re_canonicalize r1) (re_canonicalize r2)
  | RAlt r1 r2 => RAlt (re_canonicalize r1) (re_canonicalize r2)
  | RStar r1 => RStar (re_canonicalize r1)
  | _ => r
  end.

(** [RegExp.prototype.test]: some substring matches the body; an anchor
    pins that substring to the start or the end of the input. *)
Definition test (p : RegExp) (s : string) : bool :=
  let body := if re_ignore_case p then re_canonicalize (re_body p) else re_body p in
  let input := if re_ignore_case p then canonicalize_string s else s in
  let left := if re_from_start p then body else RCat (RStar RAny) body in
  let both := if re_to_end p then left else RCat left (RStar RAny) in
  re_match both input.

(** ** The CORS origin policy (server.js lines 26-51) *)

Inductive OriginPattern : Type :=
| PatRegExp (p : RegExp)
| PatString (s : string).

(** [/^https?:\/\/localhost(:\d+)?$/] *)
Definition localhost_re : RegExp :=
  mkRegExp true
    (RCat (RLit "http")
       (RCat (ROpt (RChr "s"))
          (RCat (RLit "://localhost")
             (ROpt (RCat (RChr ":") (RPlus RDigit))))))
    true false.

(** [/\.vercel\.app$/] *)
Definition vercel_re : RegExp :=
  mkRegExp false (RLit ".vercel.app") true false.

Definition allowedOrigins : list OriginPattern :=
  [ PatRegExp localhost_re;
    PatRegExp vercel_re;
    PatString "https://homeswift.ai";
    PatString "https://www.homeswift.ai" ].

(** [pattern instanceof RegExp ? pattern.test(origin) : pattern === origin] *)
Definition pattern_matches (origin : string) (pattern : OriginPattern) : bool :=
  match pattern with
  | PatRegExp p => test p origin
  | PatString s => String.eqb s origin
  end.

(** An error value travelling through [next(err)]: the properties the
    handlers of server.js read. *)
Record JsError : Type := mkJsError {
  err_message : option string;
  err_status : option Z;
  err_stack : option string
}.

(** [new Error(msg)]; only the first line of the stack is kept. *)
Definition new_Error (msg : string) : JsError :=
  mkJsError (Some msg) None (Some ("Error: " +:+ msg)).

(** A header that Node did not receive is [undefined]; one received with an
    empty value is the empty string. Both are falsy. *)
Definition truthy_header (h : option string) : bool :=
  match h with
  | None => false
  | Some s => negb (String.eqb s "")
  end.

(** The arguments the origin function passes to its callback, and what it
    printed with [console.warn]. *)
Record OriginDecision : Type := mkOriginDecision {
  od_error : option JsError;
  od_allow : bool;
  od_warnings : list string
}.

Definition cors_denied_message (origin : string) : string :=
  "CORS policy: " +:+ origin +:+ " not allowed".

Definition corsOptions_origin (origin : option string) : OriginDecision :=
  if negb (truthy_header origin) then mkOriginDecision None true []
  else
    let o := default "" origin in
    let isAllowed := existsb (pattern_matches o) allowedOrigins in
    if isAllowed then mkOriginDecision None true []
    else
      let msg := cors_denied_message o in
      mkOriginDecision (Some (new_Error msg)) false [msg].

(** The static part of [corsOptions]. *)
Record CorsOptions : Type := mkCorsOptions {
  co_credentials : bool;
  co_methods : list string;
  co_allowedHeaders : list string;
  co_exposedHeaders : list string;
  co_maxAge : Z;
  co_preflightContinue : bool;
  co_optionsSuccessStatus : Z
}.

Definition corsOptions : CorsOptions :=
  mkCorsOptions true
    ["GET"; "POST"; "PUT"; "DELETE"; "PATCH"; "OPTIONS"; "HEAD"]
    ["Content-Type"; "Authorization"; "X-Requested-With"; "Accept"; "Origin";
     "X-Access-Token"; "X-Refresh-Token"; "X-XSRF-TOKEN"]
    ["Content-Range"; "X-Total-Count"; "X-Access-Token"; "X-Refresh-Token";
     "Set-Cookie"]
    86400 false 204.

(** ** Requests, responses and server state *)

Inductive Method : Type :=
| GET | POST | PUT | DELETE | PATCH | OPTIONS | HEAD
| OtherMethod (name : string).

Definition method_eqb (a b : Method) : bool :=
  match a, b with
  | GET, GET | POST, POST | PUT, PUT | DELETE, DELETE
  | PATCH, PATCH | OPTIONS, OPTIONS | HEAD, HEAD => true
  | OtherMethod x, OtherMethod y => String.eqb x y
  | _, _ => false
  end.

(** Session data: [views] is the one property server.js reads and writes;
    anything the mounted routers add is carried in serialised form. *)
Record SessionData : Type := mkSessionData {
  sess_views : option Z;
  sess_extra : list (string * string)
}.

Global Instance SessionData_eq_dec : EqDecision SessionData.
Proof. solve_decision. Defined.

Definition empty_session : SessionData := mkSessionData None [].

(** JSON values as the handlers build them. [JDate] is a [Date], which
    [JSON.stringify] writes as an ISO string; [JSession] is a session object,
    written as its cookie (with the given expiry) followed by its data. *)
Inductive json : Type :=
| JNull
| JBool (b : bool)
| JNum (n : Z)
| JStr (s : string)
| JDate (ms : Z)
| JSession (data : SessionData) (expires : Z)
| JArr (items : list json)
| JObj (fields : list (string * json)).

(** An object literal some of whose properties may be [undefined]:
    [JSON.stringify] leaves those out. *)
Definition json_object (fields : list (string * option json)) : json :=
  JObj (omap (fun kv => match snd kv with
                        | Some v => Some (fst kv, v)
                        | None => None
                        end) fields).

Fixpoint json_field (k : string) (fields : list (string * json)) : option json :=
  match fields with
  | [] => None
  | (k', v) :: rest => if String.eqb k' k then Some v else json_field k rest
  end.

Inductive MediaType : Type := MediaJson | MediaUrlencoded | MediaOther.

(** What reading and decoding make of a payload within the size limit: the
    value ([JSON.parse] in strict mode, or [qs.parse]), or the error passed
    on (status 400 for a body that does not parse or does not match its
    Content-Length, 413 for too many parameters). *)
Inductive Decoded : Type :=
| Parsed (value : json)
| Rejected (error : JsError).

(** A request body. [payload_refusal] is the error with which body-parser
    refuses the request before it reads the body: status 415 for a charset or
    a content encoding it does not support. [payload_bytes] is the length of
    the body as the parser reads it. *)
Record Payload : Type := mkPayload {
  payload_type : MediaType;
  payload_bytes : Z;
  payload_refusal : option JsError;
  payload_decoded : Decoded
}.

(** An incoming request. Conditional headers (If-None-Match,
    If-Modified-Since) are not part of it: the requests modelled are
    unconditional. *)
Record Request : Type := mkRequest {
  req_method : Method;
  req_path : string;                (* pathname of the URL *)
  req_origin : option string;       (* req.headers.origin *)
  req_cookies : list (string * string);  (* the Cookie header, parsed *)
  req_payload : option Payload;
  req_sid : option string;          (* id in a correctly signed connect.sid cookie *)
  req_remoteAddress : string;       (* socket peer *)
  req_forwardedFor : list string;   (* X-Forwarded-For, left to right *)
  req_now : Z;                      (* Date.now() while it is served, ms *)
  req_genid : string;               (* the id uid-safe draws if a session is generated *)
  req_uptime : json;                (* process.uptime() *)
  req_database : bool               (* models.getSequelize() is truthy *)
}.

Inductive ResBody : Type :=
| NoBody
| TextBody (text : string)
| JsonBody (value : json).

Record Response : Type := mkResponse {
  res_status : Z;
  res_headers : list (string * string);
  res_body : ResBody
}.

Record StoredSession : Type := mkStoredSession {
  stored_data : SessionData;
  stored_expires : Z               (* cookie.expires, ms since the epoch *)
}.

(** [req.session] with [req.sessionID], and the snapshot express-session
    hashes when the session is loaded or generated. *)
Record ReqSession : Type := mkReqSession {
  rs_id : string;
  rs_data : SessionData;
  rs_original : SessionData;
  rs_from_store : bool;
  rs_expires : Z
}.

Inductive LogLevel : Type := LogWarn | LogError | LogInfo.

Record Server : Type := mkServer {
  srv_hits : gmap string (Z * Z);           (* client key -> (totalHits, resetTime) *)
  srv_sessions : gmap string StoredSession; (* MemoryStore.sessions *)
  srv_console : list (LogLevel * string)
}.

(** What the stages attach to the request and to the response as it goes
    down the stack, and the state of the process. The request line and the
    headers received are in [Request] and stay as they came. *)
Record Ctx : Type := mkCtx {
  cx_cookies : option (list (string * string));  (* req.cookies *)
  cx_body : option json;                    (* req.body *)
  cx_parsed : bool;                         (* req._body: a parser has read the body *)
  cx_session : option ReqSession;
  cx_locals : list (string * string);       (* what collaborators attach: user, tokens, ... *)
  cx_headers : list (string * string);      (* response headers set so far *)
  cx_server : Server
}.

Definition cx_log (lvl : LogLevel) (msg : string) (cx : Ctx) : Ctx :=
  mkCtx (cx_cookies cx) (cx_body cx) (cx_parsed cx) (cx_session cx) (cx_locals cx) (cx_headers cx)
    (mkServer (srv_hits (cx_server cx)) (srv_sessions (cx_server cx))
       (srv_console (cx_server cx) ++ [(lvl, msg)])).

Definition cx_set_headers (hs : list (string * string)) (cx : Ctx) : Ctx :=
  mkCtx (cx_cookies cx) (cx_body cx) (cx_parsed cx) (cx_session cx) (cx_locals cx)
    (cx_headers cx ++ hs) (cx_server cx).

Definition cx_set_body (b : json) (cx : Ctx) : Ctx :=
  mkCtx (cx_cookies cx) (Some b) (cx_parsed cx) (cx_session cx) (cx_locals cx)
    (cx_headers cx) (cx_server cx).

Definition cx_set_parsed (cx : Ctx) : Ctx :=
  mkCtx (cx_cookies cx) (cx_body cx) true (cx_session cx) (cx_locals cx)
    (cx_headers cx) (cx_server cx).

Definition cx_set_cookies (c : list (string * string)) (cx : Ctx) : Ctx :=
  mkCtx (Some c) (cx_body cx) (cx_parsed cx) (cx_session cx) (cx_locals cx)
    (cx_headers cx) (cx_server cx).

Definition cx_set_session (s : option ReqSession) (cx : Ctx) : Ctx :=
  mkCtx (cx_cookies cx) (cx_body cx) (cx_parsed cx) s (cx_locals cx) (cx_headers cx)
    (cx_server cx).

Definition cx_set_hits (h : gmap string (Z * Z)) (cx : Ctx) : Ctx :=
  mkCtx (cx_cookies cx) (cx_body cx) (cx_parsed cx) (cx_session cx) (cx_locals cx) (cx_headers cx)
    (mkServer h (srv_sessions (cx_server cx)) (srv_console (cx_server cx))).

Definition cx_set_sessions (m : gmap string StoredSession) (cx : Ctx) : Ctx :=
  mkCtx (cx_cookies cx) (cx_body cx) (cx_parsed cx) (cx_session cx) (cx_locals cx) (cx_headers cx)
    (mkServer (srv_hits (cx_server cx)) m (srv_console (cx_server cx))).

(** What a handler does with the request: [next()], [next(err)] or a throw,
    or it ends the response, with a status that Node accepts. *)
Inductive Outcome : Type :=
| Next (cx : Ctx)
| Throw (e : JsError) (cx : Ctx)
| Send (status : Z) (body : ResBody) (cx : Ctx).

Definition Handler : Type := Request -> Ctx -> Outcome.

(** The modules of the repository that server.js imports (lines 84-90): any
    behaviour is allowed. [helmet_headers] are the headers the installed
    version of helmet sets. *)
Record Collaborators : Type := mkCollaborators {
  helmet_headers : list (string * string);
  jwtAuth : Handler;
  checkRememberToken : Handler;
  loadUser : Handler;
  authRoutes : Handler;
  userRoutes : Handler;
  searchRoutes : Handler;
  testRoutes : Handler;
  propertyRouter : Handler
}.

(** ** The environment and start-up (lines 21-23, 80, 92, 113-114, 137-155) *)

Abbreviation Env := (gmap string string).

(** [dotenv.config]: a key of the file is added unless the process
    environment already has it. *)
Definition dotenv_config (file : gmap string string) (env : Env) : Env :=
  env ∪ file.

(** [process.env.NODE_ENV === 'production'] *)
Definition is_production (env : Env) : bool :=
  match env !! "NODE_ENV" with
  | Some v => String.eqb v "production"
  | None => false
  end.

Inductive SecureFlag : Type := SecureAlways | SecureNever | SecureAuto.

Record CookieOptions : Type := mkCookieOptions {
  cookie_secure : SecureFlag;
  cookie_httpOnly : bool;
  cookie_sameSite : string;
  cookie_maxAge : Z;
  cookie_domain : string
}.

Record MemoryStoreOptions : Type := mkMemoryStoreOptions {
  checkPeriod : Z
}.

Record SessionConfig : Type := mkSessionConfig {
  sc_secret : string;
  sc_resave : bool;
  sc_saveUninitialized : bool;
  sc_proxy : bool;
  sc_cookie : CookieOptions;
  sc_store_options : MemoryStoreOptions
}.

(** [a || b] on strings that may be undefined. *)
Definition string_or (a : option string) (b : string) : string :=
  match a with
  | Some s => if String.eqb s "" then b else s
  | None => b
  end.

Definition sessionConfig (env : Env) : SessionConfig :=
  let isProduction := is_production env in
  mkSessionConfig
    (string_or (env !! "SESSION_SECRET") "dev-secret-key")
    false
    false
    isProduction
    (mkCookieOptions
       (if isProduction then SecureAlways else SecureAuto)
       true
       (if isProduction then "none" else "lax")
       (1000 * 60 * 60 * 2)
       (if isProduction then ".homeswift-ai.vercel.app" else "localhost"))
    (mkMemoryStoreOptions (15 * 60 * 1000)).

(** The constructor of express-session's built-in [MemoryStore] takes no
    parameter: it creates the empty [sessions] object and starts no timer. *)
Definition MemoryStore_new (options : MemoryStoreOptions) : gmap string StoredSession :=
  ∅.

(** *** Numbers *)

(** The double nearest to an integer, ties going to the even mantissa.
    Integers up to 2^53 in magnitude are doubles; beyond, a double is a
    multiple of the power of two that leaves 53 bits. Magnitudes from 2^1024
    on, where the engine has [Infinity], are not modelled. *)
Definition round_double (z : Z) : Z :=
  let m := Z.abs z in
  if m <=? 2 ^ 53 then z
  else
    let e := Z.log2 m - 52 in
    let q := Z.shiftr m e in
    let rest := m - Z.shiftl q e in
    let half := Z.shiftl 1 (e - 1) in
    let q' := if rest <? half then q
              else if half <? rest then q + 1
              else if Z.even q then q else q + 1 in
    Z.sgn z * Z.shiftl q' e.

(** [n | 0]: the integer as a signed 32-bit value. *)
Definition to_int32 (n : Z) : Z := (n + 2 ^ 31) mod 2 ^ 32 - 2 ^ 31.

(** *** parseInt *)

(** White space and line terminators among the code units below 256. *)
Definition is_space (c : ascii) : bool :=
  let n := Z.of_nat (nat_of_ascii c) in
  ((9 <=? n) && (n <=? 13) || (n =? 32) || (n =? 160))%Z.

Fixpoint skip_spaces (s : string) : string :=
  match s with
  | String c s' => if is_space c then skip_spaces s' else s
  | EmptyString => s
  end.

Definition digit_value (radix : Z) (c : ascii) : option Z :=
  let n := Z.of_nat (nat_of_ascii c) in
  let v := if is_digit c then Some (n - 48)
           else if is_lower c then Some (n - 87)
           else if is_upper c then Some (n - 55)
           else None in
  match v with
  | Some d => if (d <? radix)%Z then Some d else None
  | None => None
  end.

(** The value of the longest prefix of digits, [None] when the first
    character is not a digit. *)
Fixpoint leading_digits (radix : Z) (acc : option Z) (s : string) : option Z :=
  match s with
  | String c s' =>
      match digit_value radix c with
      | Some d => leading_digits radix (Some (Z.mul radix (default 0 acc) + d)) s'
      | None => acc
      end
  | EmptyString => acc
  end.

(** [parseInt(s)] with no radix; [None] is [NaN]. The value is the double
    nearest to the integer the digits denote. *)
Definition parseInt (s : string) : option Z :=
  let s1 := skip_spaces s in
  let '(sign, s2) :=
    match s1 with
    | String "-" r => (-1, r)
    | String "+" r => (1, r)
    | _ => (1, s1)
    end in
  let magnitude :=
    match s2 with
    | String "0" (String "x" r) | String "0" (String "X" r) => leading_digits 16 None r
    | _ => leading_digits 10 None s2
    end in
  (fun m => round_double (sign * m)) <$> magnitude.

(** [parseInt(process.env.KEY) || d]: an unset variable reads as the string
    "undefined", which has no digits. *)
Definition parseInt_or (v : option string) (d : Z) : Z :=
  match v ≫= parseInt with
  | Some n => if (n =? 0)%Z then d else n
  | None => d
  end.

Record RateLimitOptions : Type := mkRateLimitOptions {
  rl_windowMs : Z;
  rl_max : Z;
  rl_message : json
}.

Definition limiter_options (env : Env) : RateLimitOptions :=
  mkRateLimitOptions
    (parseInt_or (env !! "RATE_LIMIT_WINDOW_MS") (15 * 60 * 1000))
    (parseInt_or (env !! "RATE_LIMIT_MAX_REQUESTS") 100)
    (JObj [("error", JStr "Too many requests, please try again later.")]).

(** The application once the module body has run. Line 21 reads
    [process.env] before [dotenv.config] (line 80) has run; every later read
    sees the environment completed from the .env file. *)
Record App : Type := mkApp {
  app_trust_proxy : option Z;      (* the 'trust proxy' setting, unset by default *)
  app_env : Env;                   (* process.env from line 80 on *)
  app_session : SessionConfig;
  app_limiter : RateLimitOptions;
  app_store_at_start : gmap string StoredSession
}.

Definition startup (env0 : Env) (dotenv_file : gmap string string) : App :=
  let trust := if is_production env0 then Some 1 else None in
  let env := dotenv_config dotenv_file env0 in
  let cfg := sessionConfig env in
  mkApp trust env cfg (limiter_options env) (MemoryStore_new (sc_store_options cfg)).

(** [req.ip]: with 'trust proxy' set to one hop the socket peer is the
    trusted proxy and the client is the last X-Forwarded-For entry. *)
Definition req_ip (app : App) (r : Request) : string :=
  match app_trust_proxy app with
  | Some _ => default (req_remoteAddress r) (last (req_forwardedFor r))
  | None => req_remoteAddress r
  end.

(** ** Express 4 routing *)

Fixpoint ends_with_slash (p : string) : bool :=
  match p with
  | EmptyString => false
  | String c EmptyString => Ascii.eqb c "/"
  | String _ rest => ends_with_slash rest
  end.

Fixpoint without_last (p : string) : string :=
  match p with
  | EmptyString => EmptyString
  | String _ EmptyString => EmptyString
  | String c rest => String c (without_last rest)
  end.

(** path-to-regexp 0.1 on a path without parameters, groups or stars, with
    [strict] and [sensitive] off. With [end: false] the pattern closes with
    the lookahead [(?=\/|$)]: the match is followed by a slash or by the end
    of the input, which is written here as a tail that consumes the rest. *)
Definition pathtoRegexp (path : string) (to_end : bool) : RegExp :=
  let trailing := ends_with_slash path in
  let body :=
    if trailing then RCat (RLit (without_last path)) (ROpt (RChr "/"))
    else RCat (RLit path) (ROpt (RChr "/")) in
  let tail :=
    if to_end then REps
    else if trailing then RStar RAny
    else RAlt REps (RCat (RChr "/") (RStar RAny)) in
  mkRegExp true (RCat body tail) true true.

Inductive Stage : Type :=
| StCors | StPreflight | StHelmet | StLimiter | StRoot | StFavicon
| StCookieParser | StJson | StUrlencoded | StSession | StMorgan
| StSessionTest | StHealth
| StJwtAuth | StCheckRememberToken | StLoadUser
| StAuthRoutes | StUserRoutes | StSearchRoutes | StTestRoutes | StPropertyRouter
| StNotFound | StErrorHandler1 | StErrorHandler2.

Global Instance Stage_eq_dec : EqDecision Stage.
Proof. solve_decision. Defined.

(** One entry of the router's stack. [layer_route] is the method of an
    [app.get] or [app.options] route; [layer_on_error] says the function
    takes four arguments. *)
Record Layer : Type := mkLayer {
  layer_path : string;
  layer_end : bool;
  layer_route : option Method;
  layer_on_error : bool;
  layer_stage : Stage
}.

Definition use (s : Stage) : Layer := mkLayer "/" false None false s.
Definition use_at (path : string) (s : Stage) : Layer := mkLayer path false None false s.
Definition use_error (s : Stage) : Layer := mkLayer "/" false None true s.
Definition route (m : Method) (path : string) (s : Stage) : Layer :=
  mkLayer path true (Some m) false s.

(** *** decodeURIComponent *)

(** The byte of a [%XX] escape at the head of the string, and what follows
    the escape. *)
Definition escaped_byte (s : string) : option (Z * string) :=
  match s with
  | String "%" (String h (String l rest)) =>
      match digit_value 16 h, digit_value 16 l with
      | Some a, Some b => Some (16 * a + b, rest)
      | _, _ => None
      end
  | _ => None
  end.

(** An escape whose byte lies between the bounds. *)
Definition escaped_between (lo hi : Z) (s : string) : option string :=
  match escaped_byte s with
  | Some (b, rest) => if (lo <=? b) && (b <=? hi) then Some rest else None
  | None => None
  end.

(** The escapes that must follow the first byte of a UTF-8 sequence of two
    to four bytes for the sequence to encode a code point: no overlong form,
    no surrogate, nothing above U+10FFFF. *)
Definition utf8_tail (first : Z) (s : string) : option string :=
  if (0xC2 <=? first) && (first <=? 0xDF) then
    escaped_between 0x80 0xBF s
  else if first =? 0xE0 then
    escaped_between 0xA0 0xBF s ≫= escaped_between 0x80 0xBF
  else if first =? 0xED then
    escaped_between 0x80 0x9F s ≫= escaped_between 0x80 0xBF
  else if (0xE1 <=? first) && (first <=? 0xEF) then
    escaped_between 0x80 0xBF s ≫= escaped_between 0x80 0xBF
  else if first =? 0xF0 then
    (escaped_between 0x90 0xBF s ≫= escaped_between 0x80 0xBF) ≫= escaped_between 0x80 0xBF
  else if (0xF1 <=? first) && (first <=? 0xF3) then
    (escaped_between 0x80 0xBF s ≫= escaped_between 0x80 0xBF) ≫= escaped_between 0x80 0xBF
  else if first =? 0xF4 then
    (escaped_between 0x80 0x8F s ≫= escaped_between 0x80 0xBF) ≫= escaped_between 0x80 0xBF
  else None.

(** Whether [decodeURIComponent] returns: every [%] opens an escape of two
    hexadecimal digits, and the escaped bytes of 0x80 and above form UTF-8
    sequences. [fuel] bounds the number of characters and escapes read. *)
Fixpoint decodes (fuel : nat) (s : string) : bool :=
  match fuel, s with
  | _, EmptyString => true
  | O, String _ _ => false
  | S fuel', String c rest =>
      if Ascii.eqb c "%" then
        match escaped_byte s with
        | None => false
        | Some (b, rest1) =>
            if b <? 0x80 then decodes fuel' rest1
            else
              match utf8_tail b rest1 with
              | Some rest2 => decodes fuel' rest2
              | None => false
              end
        end
      else decodes fuel' rest
  end.

Definition decodeURIComponent_returns (s : string) : bool :=
  decodes (String.length s) s.

(** The error [decode_param] throws: the URIError of [decodeURIComponent]
    with a new message and status 400; the stack keeps the first message. *)
Definition decode_param_error (val : string) : JsError :=
  mkJsError (Some ("Failed to decode param '" +:+ val +:+ "'")) (Some 400)
    (Some "URIError: URI malformed").

Inductive Match : Type :=
| Matches
| NoMatch
| MatchThrows (e : JsError).

(** [Layer.prototype.match]: the path [/] of [app.use(fn)] takes every
    path; the path [*] takes every path too and decodes it into its one
    parameter, which throws for a path that does not decode; any other path
    is matched by its regular expression, which has no parameter here. *)
Definition layer_match (l : Layer) (path : string) : Match :=
  if String.eqb (layer_path l) "/" && negb (layer_end l) then Matches
  else if String.eqb (layer_path l) "*" then
    if decodeURIComponent_returns path then Matches
    else MatchThrows (decode_param_error path)
  else if test (pathtoRegexp (layer_path l) (layer_end l)) path then Matches
  else NoMatch.

Definition matches (l : Layer) (path : string) : bool :=
  match layer_match l path with
  | Matches => true
  | _ => false
  end.

(** [Route.prototype._handles_method]: a GET route also serves HEAD. *)
Definition handles_method (route_method m : Method) : bool :=
  method_eqb route_method m || (method_eqb m HEAD && method_eqb route_method GET).

(** The stack in registration order (lines 76-77, 107-246). *)
Definition app_stack (app : App) : list Layer :=
  [ use StCors;
    route OPTIONS "*" StPreflight;
    use StHelmet;
    use StLimiter;
    route GET "/" StRoot;
    route GET "/favicon.ico" StFavicon;
    use StCookieParser;
    use StJson;
    use StUrlencoded;
    use StSession ]
  ++ (if is_production (app_env app) then [] else [use StMorgan])
  ++ [ route GET "/api/session-test" StSessionTest;
       route GET "/health" StHealth;
       use StJwtAuth;
       use StCheckRememberToken;
       use StLoadUser;
       use_at "/api/auth" StAuthRoutes;
       use_at "/api/users" StUserRoutes;
       use_at "/api/search" StSearchRoutes;
       use_at "/api/test" StTestRoutes;
       use_at "/api/properties" StPropertyRouter;
       use_at "*" StNotFound;
       use_error StErrorHandler1;
       use_error StErrorHandler2 ].

(** ** The stages *)

(** *** cors (the [cors] package run with [corsOptions]) *)

Definition join (sep : string) (l : list string) : string := String.concat sep l.

Definition cors_origin_headers (origin : option string) : list (string * string) :=
  (if truthy_header origin
   then [("Access-Control-Allow-Origin", default "" origin)] else [])
  ++ [("Vary", "Origin")].

Definition cors_credentials_headers (o : CorsOptions) : list (string * string) :=
  if co_credentials o then [("Access-Control-Allow-Credentials", "true")] else [].

Definition cors_exposed_headers (o : CorsOptions) : list (string * string) :=
  [("Access-Control-Expose-Headers", join "," (co_exposedHeaders o))].

Definition cors_preflight_headers (o : CorsOptions) (origin : option string)
  : list (string * string) :=
  cors_origin_headers origin
  ++ cors_credentials_headers o
  ++ [("Access-Control-Allow-Methods", join "," (co_methods o))]
  ++ [("Access-Control-Allow-Headers", join "," (co_allowedHeaders o))]
  ++ [("Access-Control-Max-Age", pretty (co_maxAge o))]
  ++ cors_exposed_headers o.

Definition cors_actual_headers (o : CorsOptions) (origin : option string)
  : list (string * string) :=
  cors_origin_headers origin ++ cors_credentials_headers o ++ cors_exposed_headers o.

Definition fold_warnings (ws : list string) (cx : Ctx) : Ctx :=
  fold_left (fun c w => cx_log LogWarn w c) ws cx.

(** The middleware [cors(corsOptions)] returns: it asks the origin function,
    passes an error on, and otherwise answers a preflight itself
    ([preflightContinue] is off) or sets the headers and continues. *)
Definition cors_stage (o : CorsOptions) (r : Request) (cx : Ctx) : Outcome :=
  let origin := req_origin r in
  let d := corsOptions_origin origin in
  let cx1 := fold_warnings (od_warnings d) cx in
  match od_error d with
  | Some e => Throw e cx1
  | None =>
      if negb (od_allow d) then Next cx1
      else if method_eqb (req_method r) OPTIONS then
        let cx2 := cx_set_headers (cors_preflight_headers o origin) cx1 in
        if co_preflightContinue o then Next cx2
        else Send (co_optionsSuccessStatus o) NoBody
               (cx_set_headers [("Content-Length", "0")] cx2)
      else Next (cx_set_headers (cors_actual_headers o origin) cx1)
  end.

(** *** helmet, cookie-parser, morgan *)

(** [helmet(...)] sets its headers and continues. *)
Definition helmet_stage (ext : Collaborators) (r : Request) (cx : Ctx) : Outcome :=
  Next (cx_set_headers (helmet_headers ext) cx).

(** [cookieParser()] fills [req.cookies] once and continues. *)
Definition cookie_parser_stage (r : Request) (cx : Ctx) : Outcome :=
  match cx_cookies cx with
  | Some _ => Next cx
  | None => Next (cx_set_cookies (req_cookies r) cx)
  end.

(** [morgan('dev')] continues at once; the line it writes to standard output
    when the response has ended is left out. *)
Definition morgan_stage (r : Request) (cx : Ctx) : Outcome := Next cx.

(** *** Rate limiter *)

(** Modelled from the spec: the counter of the express-rate-limit package is
    not under src/. Requests are counted per client identity within a window
    of [windowMs] that opens with the client's first request; once the window
    has elapsed the count starts again. *)
Definition limiter_increment (windowMs : Z) (hits : gmap string (Z * Z))
    (key : string) (now : Z) : gmap string (Z * Z) * Z :=
  let '(n, reset) :=
    match hits !! key with
    | Some (n, reset) => if (reset <=? now)%Z then (0, now + windowMs) else (n, reset)
    | None => (0, now + windowMs)
    end in
  (<[key := (n + 1, reset)]> hits, n + 1).

(** Modelled from the spec: the middleware [rateLimit(options)] returns, with
    the options of lines 112-116: a request beyond the ceiling is answered
    with status 429 and the configured message. Quota headers are left out. *)
Definition limiter_stage (app : App) (r : Request) (cx : Ctx) : Outcome :=
  let opts := app_limiter app in
  let '(hits, total) :=
    limiter_increment (rl_windowMs opts) (srv_hits (cx_server cx)) (req_ip app r) (req_now r) in
  let cx1 := cx_set_hits hits cx in
  if (rl_max opts <? total)%Z then Send 429 (JsonBody (rl_message opts)) cx1
  else Next cx1.

(** *** Body parsers ([express.json] and [express.urlencoded], limit '10mb') *)

(** [bytes.parse('10mb')] *)
Definition limit_10mb : Z := 10 * 1024 * 1024.

(** The error raw-body raises for a body over the limit. *)
Definition entity_too_large : JsError :=
  mkJsError (Some "request entity too large") (Some 413)
    (Some "PayloadTooLargeError: request entity too large").

(** [!v] for a JSON value. *)
Definition json_falsy (v : json) : bool :=
  match v with
  | JNull => true
  | JBool b => negb b
  | JNum n => n =? 0
  | JStr s => String.eqb s ""
  | _ => false
  end.

(** [req.body = req.body || {}] *)
Definition body_or_empty (cx : Ctx) : Ctx :=
  match cx_body cx with
  | Some v => if json_falsy v then cx_set_body (JObj []) cx else cx
  | None => cx_set_body (JObj []) cx
  end.

(** body-parser 1.x: a request whose body a parser has read passes through;
    otherwise [req.body] becomes an object if it is not one yet, and a
    request without body or of another media type passes through. A charset
    or content encoding that is not supported is refused with 415 before the
    body is read; reading marks the body as read; a body longer than the
    limit fails with status 413, one that does not decode with the decoder's
    error. *)
Definition body_parser (accepts : MediaType -> bool) (limit : Z)
    (r : Request) (cx : Ctx) : Outcome :=
  if cx_parsed cx then Next cx
  else
    let cx0 := body_or_empty cx in
    match req_payload r with
    | None => Next cx0
    | Some p =>
        if negb (accepts (payload_type p)) then Next cx0
        else
          match payload_refusal p with
          | Some e => Throw e cx0
          | None =>
              let cx1 := cx_set_parsed cx0 in
              if (limit <? payload_bytes p)%Z then Throw entity_too_large cx1
              else
                match payload_decoded p with
                | Parsed v => Next (cx_set_body v cx1)
                | Rejected e => Throw e cx1
                end
          end
    end.

Definition is_json (m : MediaType) : bool :=
  match m with MediaJson => true | _ => false end.

Definition is_urlencoded (m : MediaType) : bool :=
  match m with MediaUrlencoded => true | _ => false end.

Definition json_stage : Handler := body_parser is_json limit_10mb.
Definition urlencoded_stage : Handler := body_parser is_urlencoded limit_10mb.

(** *** Session (express-session with [sessionConfig] and its MemoryStore) *)

Definition generate_session (app : App) (r : Request) (cx : Ctx) : Ctx :=
  cx_set_session
    (Some (mkReqSession (req_genid r) empty_session empty_session false
             (req_now r + cookie_maxAge (sc_cookie (app_session app)))))
    cx.

(** The session of the cookie's id is taken from the store; a stored session
    whose cookie has expired is deleted on this lookup and, like an unknown
    id or a request without cookie, gives a newly generated session. *)
Definition session_stage (app : App) (r : Request) (cx : Ctx) : Outcome :=
  match cx_session cx with
  | Some _ => Next cx
  | None =>
      let store := srv_sessions (cx_server cx) in
      match req_sid r with
      | None => Next (generate_session app r cx)
      | Some sid =>
          match store !! sid with
          | None => Next (generate_session app r cx)
          | Some st =>
              if (stored_expires st <=? req_now r)%Z then
                Next (generate_session app r (cx_set_sessions (delete sid store) cx))
              else
                Next (cx_set_session
                        (Some (mkReqSession sid (stored_data st) (stored_data st) true
                                 (stored_expires st)))
                        cx)
          end
      end
  end.

(** What express-session does when the response ends, with [resave] and
    [saveUninitialized] off: the cookie's expiry moves to now + maxAge; a
    session whose data changed is written to the store, an unchanged one that
    came from the store is touched, a new unchanged one is dropped. *)
Definition session_end (app : App) (r : Request) (cx : Ctx) : Server :=
  let srv := cx_server cx in
  match cx_session cx with
  | None => srv
  | Some rs =>
      let expires := req_now r + cookie_maxAge (sc_cookie (app_session app)) in
      let store := srv_sessions srv in
      let store' :=
        if decide (rs_data rs = rs_original rs) then
          if rs_from_store rs
          then alter (fun st => mkStoredSession (stored_data st) expires) (rs_id rs) store
          else store
        else <[rs_id rs := mkStoredSession (rs_data rs) expires]> store in
      mkServer (srv_hits srv) store' (srv_console srv)
  end.

(** *** The fixed endpoints (lines 120-125 and 169-194) *)

Definition root_handler (r : Request) (cx : Ctx) : Outcome :=
  Send 200 (TextBody "HomeSwift API is running 🚀") cx.

Definition favicon_handler (r : Request) (cx : Ctx) : Outcome :=
  Send 204 NoBody cx.

(** [x++] on a number that is an integer. Numbers are doubles: the sum is
    the double nearest to n + 1, which is n + 1 from -2^53 to 2^53 - 1. *)
Definition js_increment (n : Z) : Z := round_double (n + 1).

(** [!v] for a property that is a number or undefined. *)
Definition falsy_number (v : option Z) : bool :=
  match v with
  | None => true
  | Some n => (n =? 0)%Z
  end.

Definition set_views (v : Z) (d : SessionData) : SessionData :=
  mkSessionData (Some v) (sess_extra d).

(** Lines 171-176: [if (!req.session.views) req.session.views = 0;
    req.session.views++]. *)
Definition bump_views (d0 : SessionData) : SessionData :=
  let d1 := if falsy_number (sess_views d0) then set_views 0 d0 else d0 in
  set_views (js_increment (default 0 (sess_views d1))) d1.

Definition session_test_handler (r : Request) (cx : Ctx) : Outcome :=
  match cx_session cx with
  | None =>
      Throw (mkJsError (Some "Cannot read properties of undefined (reading 'views')")
               None (Some "TypeError")) cx
  | Some rs =>
      let d := bump_views (rs_data rs) in
      let rs' := mkReqSession (rs_id rs) d (rs_original rs) (rs_from_store rs)
                   (rs_expires rs) in
      Send 200
        (JsonBody (JObj [ ("message", JStr "Session test successful");
                          ("views", JNum (default 0 (sess_views d)));
                          ("sessionId", JStr (rs_id rs));
                          ("session", JSession d (rs_expires rs)) ]))
        (cx_set_session (Some rs') cx)
  end.

Definition health_handler (r : Request) (cx : Ctx) : Outcome :=
  Send 200
    (JsonBody (JObj [ ("status", JStr "OK");
                      ("timestamp", JDate (req_now r));
                      ("uptime", req_uptime r);
                      ("database",
                       JStr (if req_database r then "connected" else "disconnected")) ]))
    cx.

(** *** Fallback and error handlers (lines 209-224 and 240-246) *)

Definition not_found_body : json :=
  JObj [("success", JBool false); ("error", JStr "Route not found")].

Definition not_found_handler (r : Request) (cx : Ctx) : Outcome :=
  Send 404 (JsonBody not_found_body) cx.

(** [err.status || 500] *)
Definition status_or_500 (e : JsError) : Z :=
  match err_status e with
  | Some s => if (s =? 0)%Z then 500 else s
  | None => 500
  end.

(** Node writes the head of a response for a status from 100 to 999, taken
    as a 32-bit integer, and throws for any other. *)
Definition valid_status (status : Z) : bool :=
  (100 <=? to_int32 status) && (to_int32 status <=? 999).

(** The RangeError of [writeHead]. The status is written in decimal, as the
    engine writes an integer below 10^21. *)
Definition invalid_status_error (status : Z) : JsError :=
  mkJsError (Some ("Invalid status code: " +:+ pretty status)) None
    (Some ("RangeError [ERR_HTTP_INVALID_STATUS_CODE]: Invalid status code: "
           +:+ pretty status)).

(** [res.status(status).json(body)]: the response is sent, or the call
    throws when Node refuses the status. *)
Definition respond (status : Z) (body : ResBody) (cx : Ctx) : Outcome :=
  if valid_status status then Send (to_int32 status) body cx
  else Throw (invalid_status_error status) cx.

Definition global_error_body (app : App) (e : JsError) : json :=
  json_object
    [ ("success", Some (JBool false));
      ("error", if is_production (app_env app)
                then Some (JStr "Something went wrong!")
                else JStr <$> err_message e) ].

Definition global_error_handler (app : App) (e : JsError) (r : Request) (cx : Ctx)
  : Outcome :=
  let cx1 := cx_log LogError ("Global error handler: " +:+ default "undefined" (err_stack e)) cx in
  respond (status_or_500 e) (JsonBody (global_error_body app e)) cx1.

Definition is_development (env : Env) : bool :=
  match env !! "NODE_ENV" with
  | Some v => String.eqb v "development"
  | None => false
  end.

Definition last_error_handler (app : App) (e : JsError) (r : Request) (cx : Ctx)
  : Outcome :=
  let shown := string_or (err_stack e) (default "undefined" (err_message e)) in
  let cx1 := cx_log LogError ("Server Error: " +:+ shown) cx in
  respond (status_or_500 e)
    (JsonBody (json_object
       [ ("error", Some (JStr (string_or (err_message e) "Internal Server Error")));
         ("stack", if is_development (app_env app) then JStr <$> err_stack e else None) ]))
    cx1.

(** ** Running the stack *)

Definition stage_handler (app : App) (ext : Collaborators) (s : Stage) : Handler :=
  match s with
  | StCors | StPreflight => cors_stage corsOptions
  | StHelmet => helmet_stage ext
  | StLimiter => limiter_stage app
  | StRoot => root_handler
  | StFavicon => favicon_handler
  | StCookieParser => cookie_parser_stage
  | StJson => json_stage
  | StUrlencoded => urlencoded_stage
  | StSession => session_stage app
  | StMorgan => morgan_stage
  | StSessionTest => session_test_handler
  | StHealth => health_handler
  | StJwtAuth => jwtAuth ext
  | StCheckRememberToken => checkRememberToken ext
  | StLoadUser => loadUser ext
  | StAuthRoutes => authRoutes ext
  | StUserRoutes => userRoutes ext
  | StSearchRoutes => searchRoutes ext
  | StTestRoutes => testRoutes ext
  | StPropertyRouter => propertyRouter ext
  | StNotFound => not_found_handler
  | StErrorHandler1 | StErrorHandler2 => fun _ => Next
  end.

Definition stage_error_handler (app : App) (s : Stage) (e : JsError) : Handler :=
  match s with
  | StErrorHandler1 => global_error_handler app e
  | StErrorHandler2 => last_error_handler app e
  | _ => fun _ => Throw e
  end.

Inductive Verdict : Type :=
| Continued
| Ended
| Failed (e : JsError).

(** The stages that were called, in order, and how each one left. A layer
    whose path matching threw, and so raised the error, is in the trace as
    failed, though its function was not called. *)
Definition Trace : Type := list (Stage * Verdict).

(** How the stack leaves a request: with the response a handler sent
    (status, headers and the payload the handler gave), or unanswered. *)
Inductive Run : Type :=
| Sent (response : Response) (cx : Ctx) (trace : Trace)
| Unhandled (err : option JsError) (cx : Ctx) (trace : Trace).

Definition run_prepend (pre : Trace) (r : Run) : Run :=
  match r with
  | Sent resp cx tr => Sent resp cx (pre ++ tr)
  | Unhandled err cx tr => Unhandled err cx (pre ++ tr)
  end.

(** Whether the router calls the layer. With an error pending only the
    four-argument functions are called, and routes never match; without one
    those functions are skipped, and a route needs a handler for the method. *)
Definition layer_selected (l : Layer) (err : option JsError) (r : Request) : bool :=
  match err with
  | Some _ =>
      layer_on_error l
      && match layer_route l with Some _ => false | None => true end
      && matches l (req_path r)
  | None =>
      negb (layer_on_error l)
      && match layer_route l with
         | Some m => handles_method m (req_method r)
         | None => true
         end
      && matches l (req_path r)
  end.

Definition invoke (app : App) (ext : Collaborators) (l : Layer)
    (err : option JsError) : Handler :=
  match err with
  | Some e => stage_error_handler app (layer_stage l) e
  | None => stage_handler app ext (layer_stage l)
  end.

(** The error a layer raises when the router tries its path: what the
    matching threw, unless an error is pending already. *)
Definition raised (l : Layer) (err : option JsError) (r : Request) : option JsError :=
  match layer_match l (req_path r), err with
  | MatchThrows e, None => Some e
  | _, _ => None
  end.

(** The router's [next] loop over the remaining layers. Matching comes
    first: a layer whose matching throws is passed over, and what it threw
    becomes the pending error unless one is pending already. *)
Fixpoint run_layers (app : App) (ext : Collaborators) (ls : list Layer)
    (r : Request) (err : option JsError) (cx : Ctx) : Run :=
  match ls with
  | [] => Unhandled err cx []
  | l :: rest =>
      match raised l err r with
      | Some e =>
          run_prepend [(layer_stage l, Failed e)] (run_layers app ext rest r (Some e) cx)
      | None =>
          if layer_selected l err r then
            match invoke app ext l err r cx with
            | Next cx' =>
                run_prepend [(layer_stage l, Continued)] (run_layers app ext rest r None cx')
            | Throw e cx' =>
                run_prepend [(layer_stage l, Failed e)]
                  (run_layers app ext rest r (Some e) cx')
            | Send status body cx' =>
                Sent (mkResponse status (cx_headers cx') body) cx' [(layer_stage l, Ended)]
            end
          else run_layers app ext rest r err cx
      end
  end.

Definition initial_ctx (srv : Server) : Ctx :=
  mkCtx None None false None [] [] srv.

Definition run_response (r : Run) : option Response :=
  match r with
  | Sent resp _ _ => Some resp
  | Unhandled _ _ _ => None
  end.

Definition run_trace (r : Run) : Trace :=
  match r with
  | Sent _ _ tr => tr
  | Unhandled _ _ tr => tr
  end.

Definition run_ctx (r : Run) : Ctx :=
  match r with
  | Sent _ cx _ => cx
  | Unhandled _ cx _ => cx
  end.

(** The body that goes out: none for a HEAD request, and none with a status
    that has no body (1xx, 204, 304, and 205 since Express 4.18); otherwise
    the payload the handler gave. *)
Definition wire_body (r : Request) (resp : Response) : ResBody :=
  let st := res_status resp in
  if method_eqb (req_method r) HEAD
     || ((100 <=? st) && (st <? 200)) || (st =? 204) || (st =? 205) || (st =? 304)
  then NoBody
  else res_body resp.

(** One request against the application. *)
Definition handle (app : App) (ext : Collaborators) (srv : Server) (r : Request) : Run :=
  run_layers app ext (app_stack app) r None (initial_ctx srv).

(** The server once the response has ended. *)
Definition server_after (app : App) (r : Request) (run : Run) : Server :=
  session_end app r (run_ctx run).

Definition stages_called (r : Run) : list Stage := fst <$> run_trace r.

(** Collaborators that only pass the request on, and a server that has
    served nothing yet. *)
Definition pass_on : Handler := fun _ cx => Next cx.

Definition pass_through : Collaborators :=
  mkCollaborators [] pass_on pass_on pass_on pass_on pass_on pass_on pass_on pass_on.

Definition fresh_server (app : App) : Server :=
  mkServer ∅ (app_store_at_start app) [].

(** ** Vocabulary of the statements *)

(** [http://localhost] or [https://localhost], alone or followed by a colon
    and one or more digits. *)
Definition localhost_origin (o : string) : Prop :=
  exists tls port,
    o = "http" +:+ tls +:+ "://localhost" +:+ port
    /\ (tls = "" \/ tls = "s")
    /\ (port = "" \/ exists ds, port = ":" +:+ ds /\ ds <> "" /\ all_digits ds = true).

(** Any string that ends in [.vercel.app]. *)
Definition vercel_origin (o : string) : Prop :=
  exists p, o = p +:+ ".vercel.app".

Definition origin_listed (o : string) : Prop :=
  localhost_origin o \/ vercel_origin o
  \/ o = "https://homeswift.ai" \/ o = "https://www.homeswift.ai".

(** A layer whose function takes three arguments. *)
Definition normal_layer (l : Layer) : Prop := layer_on_error l = false.

Definition all_continued (tr : Trace) : Prop :=
  Forall (fun x : Stage * Verdict => snd x = Continued) tr.

(** What follows a first part of the stack that left the request
    unanswered. *)
Definition run_then (first : Run) (k : option JsError -> Ctx -> Run) : Run :=
  match first with
  | Sent resp cx tr => Sent resp cx tr
  | Unhandled err cx tr => run_prepend tr (k err cx)
  end.

(** The stack up to the not-found fallback, and the three layers that close it. *)
Definition routes_stack (app : App) : list Layer :=
  [ use StCors;
    route OPTIONS "*" StPreflight;
    use StHelmet;
    use StLimiter;
    route GET "/" StRoot;
    route GET "/favicon.ico" StFavicon;
    use StCookieParser;
    use StJson;
    use StUrlencoded;
    use StSession ]
  ++ (if is_production (app_env app) then [] else [use StMorgan])
  ++ [ route GET "/api/session-test" StSessionTest;
       route GET "/health" StHealth;
       use StJwtAuth;
       use StCheckRememberToken;
       use StLoadUser;
       use_at "/api/auth" StAuthRoutes;
       use_at "/api/users" StUserRoutes;
       use_at "/api/search" StSearchRoutes;
       use_at "/api/test" StTestRoutes;
       use_at "/api/properties" StPropertyRouter ].

(** The stack by parts. *)
Definition stack_before_parsers : list Layer :=
  [ use StCors;
    route OPTIONS "*" StPreflight;
    use StHelmet;
    use StLimiter;
    route GET "/" StRoot;
    route GET "/favicon.ico" StFavicon ].

Definition stack_parsers : list Layer :=
  [ use StCookieParser; use StJson; use StUrlencoded ].

Definition stack_logging (app : App) : list Layer :=
  if is_production (app_env app) then [] else [use StMorgan].

Definition stack_auth : list Layer :=
  [ use StJwtAuth; use StCheckRememberToken; use StLoadUser ].

Definition stack_after_parsers (app : App) : list Layer :=
  [use StSession] ++ stack_logging app
  ++ [route GET "/api/session-test" StSessionTest; route GET "/health" StHealth]
  ++ stack_auth.

Definition closing_stack : list Layer :=
  [ use_at "*" StNotFound; use_error StErrorHandler1; use_error StErrorHandler2 ].

Definition fixed_endpoints : list Layer :=
  [ route GET "/" StRoot;
    route GET "/favicon.ico" StFavicon;
    route GET "/api/session-test" StSessionTest;
    route GET "/health" StHealth ].

Definition mounted_routers : list Layer :=
  [ use_at "/api/auth" StAuthRoutes;
    use_at "/api/users" StUserRoutes;
    use_at "/api/search" StSearchRoutes;
    use_at "/api/test" StTestRoutes;
    use_at "/api/properties" StPropertyRouter ].

(** The path matches no fixed endpoint and no mounted prefix. *)
Definition unrouted (path : string) : bool :=
  forallb (fun l => negb (matches l path)) (fixed_endpoints ++ mounted_routers).

(** The response the first error handler sends for [e]. *)
Definition error_response (app : App) (e : JsError) (headers : list (string * string))
  : Response :=
  mkResponse (status_or_500 e) headers (JsonBody (global_error_body app e)).

(** The same with the status as Node writes it. *)
Definition error_reply (app : App) (e : JsError) (headers : list (string * string))
  : Response :=
  mkResponse (to_int32 (status_or_500 e)) headers (JsonBody (global_error_body app e)).

(** The status the error declares, or 500, is one Node accepts as it is. *)
Definition plain_status (e : JsError) : Prop := 100 <= status_or_500 e <= 999.

(** The payload of the second error handler. *)
Definition last_error_body (app : App) (e : JsError) : json :=
  json_object
    [ ("error", Some (JStr (string_or (err_message e) "Internal Server Error")));
      ("stack", if is_development (app_env app) then JStr <$> err_stack e else None) ].

(** What the first error handler prints. *)
Definition global_error_log (e : JsError) : string :=
  "Global error handler: " +:+ default "undefined" (err_stack e).

(** The session the request presents is unknown to the store or has expired,
    or the request presents none: the session stage generates one. *)
Definition fresh_session (srv : Server) (r : Request) : Prop :=
  match req_sid r with
  | None => True
  | Some sid =>
      match srv_sessions srv !! sid with
      | None => True
      | Some st => stored_expires st <= req_now r
      end
  end.

(** The body of the session-test response. *)
Definition session_test_body (views : Z) (sid : string) (data : SessionData) (expires : Z)
  : ResBody :=
  JsonBody (JObj [ ("message", JStr "Session test successful");
                   ("views", JNum views);
                   ("sessionId", JStr sid);
                   ("session", JSession data expires) ]).

(** The second context has the body, the session and the session store of
    the first. *)
Definition keeps_state (cx1 cx2 : Ctx) : Prop :=
  cx_body cx2 = cx_body cx1
  /\ cx_session cx2 = cx_session cx1
  /\ srv_sessions (cx_server cx2) = srv_sessions (cx_server cx1).

(** ** Sample inputs *)

Definition dev_app : App := startup ∅ ∅.

Definition prod_app : App := startup {[ "NODE_ENV" := "production" ]} ∅.

Definition sample_request (m : Method) (path : string) (origin : option string) : Request :=
  mkRequest m path origin [] None None "203.0.113.7" [] 1000 "sid-1" (JNum 12) true.

(** A JSON body of five bytes that does not parse, and the request that
    posts it. *)
Definition malformed_json : Payload :=
  mkPayload MediaJson 5 None
    (Rejected (mkJsError (Some "Unexpected token h in JSON at position 1") (Some 400)
                 (Some "SyntaxError: Unexpected token h in JSON at position 1"))).

Definition post_request (path : string) (p : Payload) : Request :=
  mkRequest POST path None [] (Some p) None "203.0.113.7" [] 1000 "sid-1" (JNum 12) true.

(** The stages registered before the session stage. *)
Definition early_stages : list Stage :=
  [StCors; StPreflight; StHelmet; StLimiter; StRoot; StFavicon;
   StCookieParser; StJson; StUrlencoded].

(** The stages from the session stage on. *)
Definition stack_from_session (app : App) : list Layer :=
  stack_after_parsers app ++ mounted_routers ++ closing_stack.



Definition outcome_ctx (o : Outcome) : Ctx :=
  match o with
  | Next cx => cx
  | Throw _ cx => cx
  | Send _ _ cx => cx
  end.

(** The limiter's answers to a series of requests, the counters going from
    one request to the next. *)
Fixpoint limiter_series (app : App) (cx : Ctx) (rs : list Request) : list Outcome :=
  match rs with
  | [] => []
  | r :: rest =>
      let o := limiter_stage app r cx in
      o :: limiter_series app (outcome_ctx o) rest
  end.

(** No window is open for the client at the time of the request. *)
Definition window_closed (hits : gmap string (Z * Z)) (key : string) (now : Z) : Prop :=
  match hits !! key with
  | None => True
  | Some (_, reset) => reset <= now
  end.

Definition too_many_requests : ResBody :=
  JsonBody (JObj [("error", JStr "Too many requests, please try again later.")]).

(** A second client asks for the health report three hours after the first
    request. *)
Definition later_request : Request :=
  mkRequest GET "/health" None [] None None "198.51.100.23" []
    (1000 + 3 * 60 * 60 * 1000) "sid-9" (JNum 10812) true.

(** * Properties *)

(** ** Strings *)

Lemma string_app_cons (c : ascii) (s t : string) : String c s +:+ t = String c (s +:+ t).
Proof. reflexivity. Qed.

Lemma string_app_nil_l (s : string) : "" +:+ s = s.
Proof. reflexivity. Qed.

Lemma string_app_nil_r (s : string) : s +:+ "" = s.
Proof.
  induction s as [|c s IH]; [reflexivity |].
  now rewrite string_app_cons, IH.
Qed.

Lemma string_app_assoc (s1 s2 s3 : string) : (s1 +:+ s2) +:+ s3 = s1 +:+ (s2 +:+ s3).
Proof.
  induction s1 as [|c s1 IH]; [reflexivity |].
  now rewrite !string_app_cons, IH.
Qed.

Lemma string_app_eq_nil (s1 s2 : string) : s1 +:+ s2 = "" -> s1 = "" /\ s2 = "".
Proof.
  destruct s1 as [|c s1]; [rewrite string_app_nil_l; tauto |].
  rewrite string_app_cons. discriminate.
Qed.

Lemma string_app_eq_cons (s1 s2 s : string) (a : ascii) :
  s1 +:+ s2 = String a s ->
  (s1 = "" /\ s2 = String a s) \/ (exists s1', s1 = String a s1' /\ s = s1' +:+ s2).
Proof.
  destruct s1 as [|c s1]; intros H.
  - left. rewrite string_app_nil_l in H. tauto.
  - right. rewrite string_app_cons in H. injection H as -> <-. eauto.
Qed.

(** ** The pattern matcher agrees with the language of the pattern *)

Section Regex.

Lemma nullable_lang (r : re) : nullable r = true -> re_lang r "".
Proof.
  induction r; simpl; intros H; try discriminate.
  - constructor.
  - apply andb_true_iff in H as [H1 H2].
    change "" with ("" +:+ ""). constructor; auto.
  - apply orb_true_iff in H as [H|H]; [apply lang_alt_l | apply lang_alt_r]; auto.
  - constructor.
Qed.

Lemma lang_nullable (r : re) (s : string) : re_lang r s -> s = "" -> nullable r = true.
Proof.
  induction 1; simpl; intros Hs; try discriminate; auto.
  - apply string_app_eq_nil in Hs as [-> ->]. rewrite IHre_lang1, IHre_lang2; auto.
  - rewrite IHre_lang; auto.
  - rewrite IHre_lang; auto. apply orb_true_r.
Qed.

Lemma nullable_spec (r : re) : nullable r = true <-> re_lang r "".
Proof. split; [apply nullable_lang | intros H; eapply lang_nullable; eauto]. Qed.

Lemma deriv_sound (a : ascii) (r : re) :
  forall s, re_lang (deriv a r) s -> re_lang r (String a s).
Proof.
  induction r; simpl; intros s H.
  - inversion H.
  - inversion H.
  - destruct (Ascii.eqb_spec c a) as [->|]; inversion H; subst. constructor.
  - destruct (is_digit a) eqn:Hd; inversion H; subst. now constructor.
  - inversion H; subst. constructor.
  - destruct (nullable r1) eqn:Hn.
    + inversion H; subst.
      * match goal with Hc : re_lang (RCat _ _) _ |- _ => inversion Hc; subst end.
        change (String a (s1 +:+ s2)) with (String a s1 +:+ s2). constructor; auto.
      * change (String a s) with ("" +:+ String a s).
        constructor; [now apply nullable_lang | auto].
    + inversion H; subst.
      change (String a (s1 +:+ s2)) with (String a s1 +:+ s2). constructor; auto.
  - inversion H; subst; [apply lang_alt_l | apply lang_alt_r]; auto.
  - inversion H; subst.
    change (String a (s1 +:+ s2)) with (String a s1 +:+ s2). constructor; auto.
Qed.

Lemma deriv_complete (a : ascii) (r : re) (w : string) :
  re_lang r w -> forall t, w = String a t -> re_lang (deriv a r) t.
Proof.
  induction 1; intros t Hw; simpl.
  - discriminate.
  - injection Hw as -> <-. rewrite Ascii.eqb_refl. constructor.
  - injection Hw as -> <-. rewrite H. constructor.
  - injection Hw as -> <-. constructor.
  - apply string_app_eq_cons in Hw as [[-> ->] | (s1' & -> & ->)].
    + rewrite (lang_nullable _ _ H eq_refl). apply lang_alt_r. auto.
    + specialize (IHre_lang1 _ eq_refl).
      destruct (nullable r1); [apply lang_alt_l |]; constructor; auto.
  - apply lang_alt_l. auto.
  - apply lang_alt_r. auto.
  - discriminate.
  - apply string_app_eq_cons in Hw as [[-> ->] | (s1' & -> & ->)].
    + apply (IHre_lang2 _ eq_refl).
    + constructor; auto.
Qed.

Lemma re_match_spec (s : string) : forall r, re_match r s = true <-> re_lang r s.
Proof.
  induction s as [|a s IH]; intros r; simpl.
  - apply nullable_spec.
  - rewrite IH. split; [apply deriv_sound | intros H; eapply deriv_complete; eauto].
Qed.

Lemma lang_eps_iff (s : string) : re_lang REps s <-> s = "".
Proof. split; [now inversion 1 | intros ->; constructor]. Qed.

Lemma lang_chr_iff (c : ascii) (s : string) : re_lang (RChr c) s <-> s = String c "".
Proof. split; [now inversion 1 | intros ->; constructor]. Qed.

Lemma lang_cat_iff (r1 r2 : re) (s : string) :
  re_lang (RCat r1 r2) s <->
  exists s1 s2, s = s1 +:+ s2 /\ re_lang r1 s1 /\ re_lang r2 s2.
Proof.
  split.
  - inversion 1; subst; eauto.
  - intros (s1 & s2 & -> & H1 & H2). now constructor.
Qed.

Lemma lang_alt_iff (r1 r2 : re) (s : string) :
  re_lang (RAlt r1 r2) s <-> re_lang r1 s \/ re_lang r2 s.
Proof.
  split.
  - inversion 1; subst; auto.
  - intros [H|H]; [apply lang_alt_l | apply lang_alt_r]; auto.
Qed.

Lemma lang_opt_iff (r : re) (s : string) :
  re_lang (ROpt r) s <-> re_lang r s \/ s = "".
Proof. unfold ROpt. rewrite lang_alt_iff, lang_eps_iff. reflexivity. Qed.

Lemma lang_lit_iff (w : string) : forall s, re_lang (RLit w) s <-> s = w.
Proof.
  induction w as [|c w IH]; intros s; simpl.
  - apply lang_eps_iff.
  - rewrite lang_cat_iff. split.
    + intros (s1 & s2 & -> & H1 & H2).
      apply lang_chr_iff in H1 as ->. apply IH in H2 as ->. reflexivity.
    + intros ->. exists (String c ""), w. repeat split.
      * constructor.
      * now apply IH.
Qed.

Lemma lang_star_any (s : string) : re_lang (RStar RAny) s.
Proof.
  induction s as [|c s IH]; [constructor |].
  change (String c s) with (String c "" +:+ s). constructor; [constructor | exact IH].
Qed.

Lemma lang_star_digit (r : re) (s : string) :
  re_lang r s -> r = RStar RDigit -> all_digits s = true.
Proof.
  induction 1; intros Hr; try discriminate; [reflexivity |].
  injection Hr as ->. specialize (IHre_lang2 eq_refl).
  inversion H; subst. rewrite string_app_cons, string_app_nil_l.
  simpl. match goal with Hd : is_digit _ = true |- _ => rewrite Hd end.
  exact IHre_lang2.
Qed.

Lemma all_digits_star (s : string) : all_digits s = true -> re_lang (RStar RDigit) s.
Proof.
  induction s as [|c s IH]; simpl; intros H; [constructor |].
  apply andb_true_iff in H as [Hc Hs].
  change (String c s) with (String c "" +:+ s). constructor; [now constructor | auto].
Qed.

Lemma lang_plus_digit_iff (s : string) :
  re_lang (RPlus RDigit) s <-> s <> "" /\ all_digits s = true.
Proof.
  unfold RPlus. rewrite lang_cat_iff. split.
  - intros (s1 & s2 & -> & H1 & H2). inversion H1; subst. split; [discriminate |].
    rewrite string_app_cons, string_app_nil_l.
    simpl. match goal with Hd : is_digit _ = true |- _ => rewrite Hd end.
    simpl. eapply lang_star_digit; eauto.
  - intros [Hne Hd]. destruct s as [|c s]; [congruence |].
    simpl in Hd. apply andb_true_iff in Hd as [Hc Hs].
    exists (String c ""), s. repeat split; [now constructor | now apply all_digits_star].
Qed.

End Regex.

Lemma test_anchored (body : re) (s : string) :
  test (mkRegExp true body true false) s = re_match body s.
Proof. reflexivity. Qed.

Lemma test_suffix (body : re) (s : string) :
  test (mkRegExp false body true false) s = re_match (RCat (RStar RAny) body) s.
Proof. reflexivity. Qed.

(** ** The allow-list in words *)

Lemma test_localhost_re (o : string) : test localhost_re o = true <-> localhost_origin o.
Proof.
  unfold localhost_re, localhost_origin.
  rewrite test_anchored, re_match_spec.
  rewrite lang_cat_iff. setoid_rewrite (lang_lit_iff "http").
  setoid_rewrite lang_cat_iff. setoid_rewrite lang_opt_iff.
  setoid_rewrite lang_chr_iff.
  setoid_rewrite lang_cat_iff. setoid_rewrite (lang_lit_iff "://localhost").
  setoid_rewrite lang_opt_iff. setoid_rewrite lang_cat_iff.
  setoid_rewrite lang_chr_iff. setoid_rewrite lang_plus_digit_iff.
  split.
  - intros (s1 & s2 & -> & -> & t1 & t2 & -> & Ht & u1 & u2 & -> & -> & Hp).
    exists t1, u2. split; [reflexivity |]. split.
    + destruct Ht as [->| ->]; auto.
    + destruct Hp as [(c & ds & -> & -> & Hds) | ->]; [right | left]; eauto.
  - intros (tls & port & -> & Ht & Hp).
    exists "http", (tls +:+ "://localhost" +:+ port). repeat split.
    exists tls, ("://localhost" +:+ port). repeat split.
    + destruct Ht as [->| ->]; auto.
    + exists "://localhost", port. repeat split.
      destruct Hp as [->|(ds & -> & Hds)]; [right; reflexivity | left].
      exists ":", ds. repeat split; tauto.
Qed.

Lemma test_vercel_re (o : string) : test vercel_re o = true <-> vercel_origin o.
Proof.
  unfold vercel_re, vercel_origin.
  rewrite test_suffix, re_match_spec, lang_cat_iff. setoid_rewrite lang_lit_iff. split.
  - intros (s1 & s2 & -> & _ & ->). eauto.
  - intros (p & ->). exists p, ".vercel.app". repeat split. apply lang_star_any.
Qed.

Lemma allow_list_in_words (o : string) :
  existsb (pattern_matches o) allowedOrigins = true <-> origin_listed o.
Proof.
  unfold allowedOrigins, origin_listed. cbn [existsb pattern_matches].
  rewrite !orb_true_iff, test_localhost_re, test_vercel_re, !String.eqb_eq.
  intuition congruence.
Qed.

(** ** The router *)

Arguments layer_selected : simpl never.

(** Membership in a list that is written out: the goal [x ∈ [a; b; ...]],
    and the cases of a hypothesis [H : x ∈ [a; b; ...]]. *)
Ltac in_list := solve [repeat first [apply list_elem_of_here | apply list_elem_of_further]].

Ltac list_cases H :=
  repeat (apply elem_of_cons in H as [->|H]); try (now apply elem_of_nil in H).

Lemma handle_eq (app : App) (ext : Collaborators) (srv : Server) (r : Request) :
  handle app ext srv r = run_layers app ext (app_stack app) r None (initial_ctx srv).
Proof. reflexivity. Qed.

Section Router.

Variable app : App.
Variable ext : Collaborators.
Variable r : Request.

Local Abbreviation run ls err cx := (run_layers app ext ls r err cx).

Lemma run_prepend_nil (x : Run) : run_prepend [] x = x.
Proof. destruct x; reflexivity. Qed.

Lemma run_prepend_app (p q : Trace) (x : Run) :
  run_prepend p (run_prepend q x) = run_prepend (p ++ q) x.
Proof. destruct x; simpl; now rewrite app_assoc. Qed.

Lemma run_trace_prepend (p : Trace) (x : Run) :
  run_trace (run_prepend p x) = p ++ run_trace x.
Proof. destruct x; reflexivity. Qed.

Lemma run_response_prepend (p : Trace) (x : Run) :
  run_response (run_prepend p x) = run_response x.
Proof. destruct x; reflexivity. Qed.

Lemma run_ctx_prepend (p : Trace) (x : Run) : run_ctx (run_prepend p x) = run_ctx x.
Proof. destruct x; reflexivity. Qed.

Lemma run_then_prepend (p : Trace) (x : Run) (k : option JsError -> Ctx -> Run) :
  run_then (run_prepend p x) k = run_prepend p (run_then x k).
Proof. destruct x; simpl; [reflexivity | now rewrite run_prepend_app]. Qed.

Lemma prepend_unhandled (p : Trace) (x : Run) err cx tr :
  run_prepend p x = Unhandled err cx tr ->
  exists tr', x = Unhandled err cx tr' /\ tr = p ++ tr'.
Proof. destruct x; simpl; intros H; [discriminate | injection H as -> -> <-; eauto]. Qed.

Lemma raised_pending (l : Layer) (e : JsError) : raised l (Some e) r = None.
Proof. unfold raised. now destruct (layer_match l (req_path r)). Qed.

Lemma raised_plain (l : Layer) (err : option JsError) :
  layer_path l <> "*" -> raised l err r = None.
Proof.
  intros Hl. unfold raised, layer_match. apply String.eqb_neq in Hl. rewrite Hl.
  destruct (String.eqb (layer_path l) "/" && negb (layer_end l)); [reflexivity |].
  now destruct (test _ _).
Qed.

Lemma raised_selected (l : Layer) (err : option JsError) (e : JsError) :
  raised l err r = Some e -> layer_selected l err r = false.
Proof.
  unfold raised, layer_selected, matches.
  destruct (layer_match l (req_path r)); try discriminate.
  destruct err; [discriminate |]. intros _. now rewrite !andb_false_r.
Qed.

(** With an error pending, three-argument layers are passed over. *)
Lemma run_layers_error_skip (ls : list Layer) (e : JsError) (cx : Ctx) :
  Forall normal_layer ls -> run ls (Some e) cx = Unhandled (Some e) cx [].
Proof.
  induction 1 as [|l ls Hl _ IH]; simpl; [reflexivity |].
  rewrite raised_pending. unfold layer_selected. rewrite Hl. simpl. exact IH.
Qed.

(** Running a stack is running its first part and then, if the request is
    still open, the rest. *)
Lemma run_layers_app (l1 l2 : list Layer) :
  forall err cx,
    run (l1 ++ l2) err cx = run_then (run l1 err cx) (fun err' cx' => run l2 err' cx').
Proof.
  induction l1 as [|l l1 IH]; intros err cx; simpl.
  - now rewrite run_prepend_nil.
  - destruct (raised l err r); [now rewrite IH, run_then_prepend |].
    destruct (layer_selected l err r); [| apply IH].
    destruct (invoke app ext l err r cx); rewrite ?IH, ?run_then_prepend; reflexivity.
Qed.

(** The stages called are called in the order of the stack, each at most
    once. *)
Lemma trace_stages_sublist (ls : list Layer) :
  forall err cx, (fst <$> run_trace (run ls err cx)) `sublist_of` (layer_stage <$> ls).
Proof.
  induction ls as [|l ls IH]; intros err cx; simpl.
  - constructor.
  - destruct (raised l err r).
    { rewrite run_trace_prepend. simpl. apply sublist_skip, IH. }
    destruct (layer_selected l err r); [| apply sublist_cons, IH].
    destruct (invoke app ext l err r cx); rewrite ?run_trace_prepend; simpl.
    + apply sublist_skip, IH.
    + apply sublist_skip, IH.
    + apply sublist_skip, sublist_nil_l.
Qed.

Lemma trace_stage_in (ls : list Layer) err cx (x : Stage * Verdict) :
  x ∈ run_trace (run ls err cx) -> fst x ∈ layer_stage <$> ls.
Proof.
  intros Hx. eapply sublist_subseteq; [apply (trace_stages_sublist ls err cx) |].
  now apply list_elem_of_fmap_2.
Qed.

(** Without error handlers in the stack, every stage but the last one called
    continued, and the last one tells how the run ended. *)
Lemma normal_run_shape (ls : list Layer) :
  Forall normal_layer ls ->
  forall cx,
    match run ls None cx with
    | Sent _ _ tr => exists pre s, tr = pre ++ [(s, Ended)] /\ all_continued pre
    | Unhandled None _ tr => all_continued tr
    | Unhandled (Some e) _ tr => exists pre s, tr = pre ++ [(s, Failed e)] /\ all_continued pre
    end.
Proof.
  induction 1 as [|l ls Hl Hls IH]; intros cx; simpl; [constructor |].
  destruct (raised l None r) as [e|].
  { rewrite run_layers_error_skip by assumption. simpl.
    exists [], (layer_stage l). split; [reflexivity | constructor]. }
  destruct (layer_selected l None r); [| apply IH].
  simpl. destruct (stage_handler app ext (layer_stage l) r cx) as [cx'|e cx'|st b cx'].
  - specialize (IH cx'). destruct (run ls None cx') as [resp c tr|[e|] c tr]; simpl.
    + destruct IH as (pre & s & -> & Hpre).
      exists ((layer_stage l, Continued) :: pre), s. split; [reflexivity |].
      now constructor.
    + destruct IH as (pre & s & -> & Hpre).
      exists ((layer_stage l, Continued) :: pre), s. split; [reflexivity |].
      now constructor.
    + now constructor.
  - rewrite run_layers_error_skip by assumption. simpl.
    exists [], (layer_stage l). split; [reflexivity | constructor].
  - exists [], (layer_stage l). split; [reflexivity | constructor].
Qed.


(** A stage that shows in the trace was reached with no error pending, after
    every layer before it had let the request through. The layer's path is
    not [*]: its matching does not throw. *)
Lemma called_layer (A : list Layer) (l : Layer) (B : list Layer) (cx : Ctx) (v : Verdict) :
  Forall normal_layer A -> normal_layer l -> layer_path l <> "*" ->
  layer_stage l ∉ layer_stage <$> A ->
  layer_stage l ∉ layer_stage <$> B ->
  (layer_stage l, v) ∈ run_trace (run (A ++ l :: B) None cx) ->
  exists cx1 trA,
    run A None cx = Unhandled None cx1 trA
    /\ all_continued trA
    /\ layer_selected l None r = true
    /\ run (A ++ l :: B) None cx = run_prepend trA (run (l :: B) None cx1)
    /\ (exists post, run_trace (run (A ++ l :: B) None cx) = trA ++ (layer_stage l, v) :: post)
    /\ match v with
       | Continued => exists cx2, stage_handler app ext (layer_stage l) r cx1 = Next cx2
       | Ended => exists st b cx2, stage_handler app ext (layer_stage l) r cx1 = Send st b cx2
       | Failed e => exists cx2, stage_handler app ext (layer_stage l) r cx1 = Throw e cx2
       end.
Proof.
  intros HA Hl Hplain HnA HnB Hin.
  pose proof (normal_run_shape A HA cx) as Hshape.
  rewrite run_layers_app in Hin |- *.
  destruct (run A None cx) as [resp c tr|err c tr] eqn:HrunA; simpl in Hin.
  - exfalso. apply HnA.
    apply (trace_stage_in A None cx (layer_stage l, v)). now rewrite HrunA.
  - rewrite run_trace_prepend in Hin. apply elem_of_app in Hin as [Hin|Hin].
    { exfalso. apply HnA.
      apply (trace_stage_in A None cx (layer_stage l, v)). now rewrite HrunA. }
    rewrite (raised_plain l err Hplain) in Hin.
    destruct err as [e|].
    + exfalso. unfold layer_selected in Hin. rewrite Hl in Hin.
      simpl in Hin. apply HnB. exact (trace_stage_in B _ _ _ Hin).
    + exists c, tr. split; [reflexivity |]. split; [exact Hshape |].
      assert (Hsel : layer_selected l None r = true).
      { destruct (layer_selected l None r); [reflexivity |].
        exfalso. apply HnB. exact (trace_stage_in B _ _ _ Hin). }
      split; [exact Hsel |]. split; [reflexivity |].
      unfold run_then. rewrite run_trace_prepend. simpl run_layers.
      rewrite (raised_plain l None Hplain).
      rewrite Hsel in Hin |- *. simpl in Hin |- *.
      destruct (stage_handler app ext (layer_stage l) r c) as [cx2|e cx2|st b cx2].
      * rewrite run_trace_prepend in Hin |- *. apply elem_of_app in Hin as [Hin|Hin].
        -- apply list_elem_of_singleton in Hin. injection Hin as ->. eauto.
        -- exfalso. apply HnB. exact (trace_stage_in B _ _ _ Hin).
      * rewrite run_trace_prepend in Hin |- *. apply elem_of_app in Hin as [Hin|Hin].
        -- apply list_elem_of_singleton in Hin. injection Hin as ->. eauto.
        -- exfalso. apply HnB. exact (trace_stage_in B _ _ _ Hin).
      * simpl in Hin |- *. apply list_elem_of_singleton in Hin. injection Hin as ->. eauto 6.
Qed.

(** Layers registered with [app.use(fn)] are called whenever the request
    gets past them. *)
Lemma fallthrough_calls_use (A : list Layer) (s : Stage) :
  Forall normal_layer A -> use s ∈ A ->
  forall cx cx' tr, run A None cx = Unhandled None cx' tr -> (s, Continued) ∈ tr.
Proof.
  induction 1 as [|l A Hl HA IH]; intros Hin cx cx' tr Hrun.
  - now apply not_elem_of_nil in Hin.
  - simpl in Hrun. apply elem_of_cons in Hin.
    destruct (raised l None r) as [e|] eqn:Hraised.
    { rewrite run_layers_error_skip in Hrun by assumption. discriminate. }
    destruct (layer_selected l None r) eqn:Hsel.
    + simpl in Hrun.
      destruct (stage_handler app ext (layer_stage l) r cx) as [cx2|e cx2|st b cx2].
      * apply prepend_unhandled in Hrun as (tr' & Hrun & ->).
        destruct Hin as [<-|Hin]; [left |].
        right. eapply IH; eauto.
      * rewrite run_layers_error_skip in Hrun by assumption. discriminate.
      * discriminate.
    + destruct Hin as [<-|Hin]; [discriminate Hsel |]. eapply IH; eauto.
Qed.

Lemma fallthrough_app (A1 A2 : list Layer) (cx cx' : Ctx) (tr : Trace) :
  Forall normal_layer A2 ->
  run (A1 ++ A2) None cx = Unhandled None cx' tr ->
  exists cxm t1 t2,
    run A1 None cx = Unhandled None cxm t1
    /\ run A2 None cxm = Unhandled None cx' t2
    /\ tr = t1 ++ t2.
Proof.
  intros H2 Hrun. rewrite run_layers_app in Hrun.
  destruct (run A1 None cx) as [resp c t|err c t]; simpl in Hrun; [discriminate |].
  apply prepend_unhandled in Hrun as (t2 & Hrun & ->).
  destruct err as [e|].
  - rewrite run_layers_error_skip in Hrun by assumption. discriminate.
  - eauto 6.
Qed.

(** What every stage of a part of the stack keeps true holds when the
    request leaves that part unanswered. *)
Lemma fallthrough_invariant (I : Ctx -> Prop) (A : list Layer) :
  Forall normal_layer A ->
  (forall l cx1 cx2, l ∈ A -> I cx1 ->
     stage_handler app ext (layer_stage l) r cx1 = Next cx2 -> I cx2) ->
  forall cx cx' tr, I cx -> run A None cx = Unhandled None cx' tr -> I cx'.
Proof.
  induction 1 as [|l A Hl HA IH]; intros Hstep cx cx' tr HI Hrun; simpl in Hrun.
  - now injection Hrun as ->.
  - assert (Hrest : forall l' cx1 cx2, l' ∈ A -> I cx1 ->
              stage_handler app ext (layer_stage l') r cx1 = Next cx2 -> I cx2).
    { intros l' cx1 cx2 Hl'. apply Hstep. now right. }
    destruct (raised l None r) as [e|].
    { rewrite run_layers_error_skip in Hrun by assumption. discriminate. }
    destruct (layer_selected l None r); [| eapply IH; eauto].
    simpl in Hrun.
    destruct (stage_handler app ext (layer_stage l) r cx) as [cx2|e cx2|st b cx2] eqn:Hh.
    + apply prepend_unhandled in Hrun as (tr' & Hrun & ->).
      eapply IH; [exact Hrest | | exact Hrun]. eapply Hstep; eauto. left.
    + rewrite run_layers_error_skip in Hrun by assumption. discriminate.
    + discriminate.
Qed.

Lemma run_cons_use (s : Stage) (rest : list Layer) (cx : Ctx) :
  run (use s :: rest) None cx =
  match stage_handler app ext s r cx with
  | Next cx' => run_prepend [(s, Continued)] (run rest None cx')
  | Throw e cx' => run_prepend [(s, Failed e)] (run rest (Some e) cx')
  | Send status body cx' => Sent (mkResponse status (cx_headers cx') body) cx' [(s, Ended)]
  end.
Proof. reflexivity. Qed.

(** *** The stack of server.js *)

Lemma app_stack_split : app_stack app = routes_stack app ++ closing_stack.
Proof. unfold app_stack, routes_stack. destruct (is_production (app_env app)); reflexivity. Qed.

Lemma app_stack_parts :
  app_stack app =
  stack_before_parsers ++ stack_parsers ++ [use StSession] ++ stack_logging app
  ++ [route GET "/api/session-test" StSessionTest; route GET "/health" StHealth]
  ++ stack_auth ++ mounted_routers ++ closing_stack.
Proof.
  unfold app_stack, stack_logging. destruct (is_production (app_env app)); reflexivity.
Qed.

Lemma logging_normal : Forall normal_layer (stack_logging app).
Proof. unfold stack_logging. destruct (is_production (app_env app)); repeat constructor. Qed.

Lemma logging_stages (s : Stage) : s ∈ layer_stage <$> stack_logging app -> s = StMorgan.
Proof.
  unfold stack_logging. destruct (is_production (app_env app)); simpl; intros H.
  - now apply not_elem_of_nil in H.
  - now apply list_elem_of_singleton in H.
Qed.

Lemma routes_normal : Forall normal_layer (routes_stack app).
Proof.
  unfold routes_stack. destruct (is_production (app_env app)); simpl;
    repeat constructor.
Qed.

Lemma run_cons_selected (l : Layer) (rest : list Layer) (cx : Ctx) :
  layer_path l <> "*" -> layer_selected l None r = true ->
  run (l :: rest) None cx =
  match stage_handler app ext (layer_stage l) r cx with
  | Next cx' => run_prepend [(layer_stage l, Continued)] (run rest None cx')
  | Throw e cx' => run_prepend [(layer_stage l, Failed e)] (run rest (Some e) cx')
  | Send status body cx' =>
      Sent (mkResponse status (cx_headers cx') body) cx' [(layer_stage l, Ended)]
  end.
Proof.
  intros Hplain Hsel. cbn [run_layers]. now rewrite (raised_plain l None Hplain), Hsel.
Qed.

Lemma run_cons_unselected (l : Layer) (rest : list Layer) (err : option JsError) (cx : Ctx) :
  layer_path l <> "*" -> layer_selected l err r = false ->
  run (l :: rest) err cx = run rest err cx.
Proof.
  intros Hplain Hsel. cbn [run_layers]. now rewrite (raised_plain l err Hplain), Hsel.
Qed.

Lemma run_cons_error (s : Stage) (rest : list Layer) (e : JsError) (cx : Ctx) :
  run (use_error s :: rest) (Some e) cx =
  match stage_error_handler app s e r cx with
  | Next cx' => run_prepend [(s, Continued)] (run rest None cx')
  | Throw e' cx' => run_prepend [(s, Failed e')] (run rest (Some e') cx')
  | Send status body cx' => Sent (mkResponse status (cx_headers cx') body) cx' [(s, Ended)]
  end.
Proof. cbn [run_layers]. now rewrite raised_pending. Qed.

Lemma run_cons_normal (l : Layer) (rest : list Layer) (e : JsError) (cx : Ctx) :
  normal_layer l -> run (l :: rest) (Some e) cx = run rest (Some e) cx.
Proof.
  intros Hl. cbn [run_layers]. rewrite raised_pending.
  unfold layer_selected. now rewrite Hl.
Qed.

Lemma run_closing_open (cx : Ctx) :
  decodeURIComponent_returns (req_path r) = true ->
  run closing_stack None cx =
  Sent (mkResponse 404 (cx_headers cx) (JsonBody not_found_body)) cx [(StNotFound, Ended)].
Proof.
  intros Hpath. unfold closing_stack. cbn [run_layers].
  assert (Hmatch : layer_match (use_at "*" StNotFound) (req_path r) = Matches).
  { unfold layer_match. cbn. now rewrite Hpath. }
  unfold raised, layer_selected, matches. rewrite Hmatch. reflexivity.
Qed.

Lemma to_int32_plain (s : Z) : 100 <= s <= 999 -> to_int32 s = s.
Proof.
  intros Hs. unfold to_int32.
  rewrite Z.mod_small; [lia |]. change (2 ^ 31) with 2147483648.
  change (2 ^ 32) with 4294967296. lia.
Qed.

Lemma valid_status_plain (s : Z) : 100 <= s <= 999 -> valid_status s = true.
Proof.
  intros Hs. unfold valid_status. rewrite (to_int32_plain s Hs).
  apply andb_true_iff. split; apply Z.leb_le; lia.
Qed.

Lemma run_closing_error (e : JsError) (cx : Ctx) :
  valid_status (status_or_500 e) = true ->
  run closing_stack (Some e) cx =
  Sent (error_reply app e (cx_headers cx)) (cx_log LogError (global_error_log e) cx)
    [(StErrorHandler1, Ended)].
Proof.
  intros Hvalid. unfold closing_stack.
  rewrite run_cons_normal by reflexivity. rewrite run_cons_error.
  cbn [stage_error_handler]. unfold global_error_handler, respond. now rewrite Hvalid.
Qed.

Lemma run_closing_error_plain (e : JsError) (cx : Ctx) :
  plain_status e ->
  run closing_stack (Some e) cx =
  Sent (error_response app e (cx_headers cx)) (cx_log LogError (global_error_log e) cx)
    [(StErrorHandler1, Ended)].
Proof.
  intros Hplain. rewrite run_closing_error by now apply valid_status_plain.
  unfold error_reply, error_response. now rewrite to_int32_plain.
Qed.

(** When Node refuses the status of the first handler's response, the call
    throws and the second handler answers with status 500. *)
Lemma run_closing_refused (e : JsError) (cx : Ctx) :
  valid_status (status_or_500 e) = false ->
  let e2 := invalid_status_error (status_or_500 e) in
  run closing_stack (Some e) cx =
  Sent (mkResponse 500 (cx_headers cx) (JsonBody (last_error_body app e2)))
    (cx_log LogError
       ("Server Error: " +:+ string_or (err_stack e2) (default "undefined" (err_message e2)))
       (cx_log LogError (global_error_log e) cx))
    [(StErrorHandler1, Failed e2); (StErrorHandler2, Ended)].
Proof.
  intros Hvalid e2. unfold closing_stack.
  rewrite run_cons_normal by reflexivity. rewrite run_cons_error.
  cbn [stage_error_handler]. unfold global_error_handler, respond. rewrite Hvalid.
  rewrite run_cons_error. reflexivity.
Qed.

Lemma run_closing_answers (e : JsError) (cx : Ctx) :
  exists resp cx' tr, run closing_stack (Some e) cx = Sent resp cx' tr.
Proof.
  destruct (valid_status (status_or_500 e)) eqn:Hvalid.
  - rewrite run_closing_error by assumption. eauto.
  - rewrite run_closing_refused by assumption. eauto.
Qed.

(** A request that the layers of the routes pass on has a path that
    decodes: the preflight route is among them. *)
Lemma fallthrough_decodes (A : list Layer) (l : Layer) :
  Forall normal_layer A -> l ∈ A -> layer_path l = "*" ->
  forall cx cx' tr,
    run A None cx = Unhandled None cx' tr -> decodeURIComponent_returns (req_path r) = true.
Proof.
  induction 1 as [|l0 A Hl0 HA IH]; intros Hin Hstar cx cx' tr Hrun.
  - now apply not_elem_of_nil in Hin.
  - simpl in Hrun. apply elem_of_cons in Hin.
    destruct (raised l0 None r) as [e|] eqn:Hraised.
    { rewrite run_layers_error_skip in Hrun by assumption. discriminate. }
    assert (Hhere : l = l0 -> decodeURIComponent_returns (req_path r) = true).
    { intros ->. unfold raised, layer_match in Hraised. rewrite Hstar in Hraised.
      cbn in Hraised. now destruct (decodeURIComponent_returns (req_path r)). }
    destruct (layer_selected l0 None r).
    + simpl in Hrun.
      destruct (stage_handler app ext (layer_stage l0) r cx) as [cx2|e cx2|st b cx2].
      * apply prepend_unhandled in Hrun as (tr' & Hrun & ->).
        destruct Hin as [Heq|Hin]; [now apply Hhere | eapply IH; eauto].
      * rewrite run_layers_error_skip in Hrun by assumption. discriminate.
      * discriminate.
    + destruct Hin as [Heq|Hin]; [now apply Hhere | eapply IH; eauto].
Qed.

Lemma routes_fallthrough_decodes (cx cx' : Ctx) (tr : Trace) :
  run (routes_stack app) None cx = Unhandled None cx' tr ->
  decodeURIComponent_returns (req_path r) = true.
Proof.
  apply (fallthrough_decodes (routes_stack app) (route OPTIONS "*" StPreflight)).
  - apply routes_normal.
  - unfold routes_stack. set_solver.
  - reflexivity.
Qed.

(** Every request is answered: by a stage of the routes, by the not-found
    fallback, or by the error handlers. *)
Lemma handle_decompose (srv : Server) :
  handle app ext srv r =
  match run (routes_stack app) None (initial_ctx srv) with
  | Sent resp cx tr => Sent resp cx tr
  | Unhandled None cx tr =>
      Sent (mkResponse 404 (cx_headers cx) (JsonBody not_found_body)) cx
        (tr ++ [(StNotFound, Ended)])
  | Unhandled (Some e) cx tr => run_prepend tr (run closing_stack (Some e) cx)
  end.
Proof.
  rewrite handle_eq, app_stack_split, run_layers_app.
  destruct (run (routes_stack app) None (initial_ctx srv)) as [resp cx tr|[e|] cx tr] eqn:Hrun;
    unfold run_then.
  - reflexivity.
  - reflexivity.
  - rewrite run_closing_open by exact (routes_fallthrough_decodes _ _ _ Hrun). reflexivity.
Qed.

Lemma handle_always_answers (srv : Server) :
  exists resp cx tr, handle app ext srv r = Sent resp cx tr.
Proof.
  rewrite handle_decompose.
  destruct (run (routes_stack app) None (initial_ctx srv)) as [resp cx tr|[e|] cx tr]; eauto.
  destruct (run_closing_answers e cx) as (resp & cx' & tr' & ->). simpl. eauto.
Qed.

End Router.

(** ** Origin policy and preflight *)

Lemma use_selected (s : Stage) (r : Request) : layer_selected (use s) None r = true.
Proof. reflexivity. Qed.

Lemma mount_selected (p : string) (s : Stage) (r : Request) :
  layer_selected (use_at p s) None r = matches (use_at p s) (req_path r).
Proof. reflexivity. Qed.

Lemma tail_normal (app : App) :
  exists mid, tail (app_stack app) = mid ++ closing_stack /\ Forall normal_layer mid.
Proof.
  exists (tail (routes_stack app)). split.
  - rewrite app_stack_split. unfold routes_stack. reflexivity.
  - pose proof (routes_normal app) as Hn. unfold routes_stack in *. simpl in *.
    now apply Forall_cons in Hn as [_ Hn].
Qed.

Lemma tail_after_error (app : App) (ext : Collaborators) (r : Request) (e : JsError) (cx : Ctx) :
  run_layers app ext (tail (app_stack app)) r (Some e) cx =
  run_layers app ext closing_stack r (Some e) cx.
Proof.
  destruct (tail_normal app) as (mid & -> & Hmid).
  rewrite run_layers_app, run_layers_error_skip by assumption.
  unfold run_then. now rewrite run_prepend_nil.
Qed.

(** The first layer decides alone whether anything else runs. *)
Lemma handle_cors_outcome (app : App) (ext : Collaborators) (srv : Server) (r : Request) :
  handle app ext srv r =
  match cors_stage corsOptions r (initial_ctx srv) with
  | Next cx =>
      run_prepend [(StCors, Continued)] (run_layers app ext (tail (app_stack app)) r None cx)
  | Throw e cx =>
      run_prepend [(StCors, Failed e)] (run_layers app ext closing_stack r (Some e) cx)
  | Send st b cx => Sent (mkResponse st (cx_headers cx) b) cx [(StCors, Ended)]
  end.
Proof.
  rewrite handle_eq.
  change (app_stack app) with (use StCors :: tail (app_stack app)) at 1.
  rewrite run_cons_use. cbn [stage_handler].
  destruct (cors_stage corsOptions r (initial_ctx srv)) as [cx|e cx|st b cx];
    [reflexivity | | reflexivity].
  now rewrite tail_after_error.
Qed.

Lemma origin_decision_cases (origin : option string) :
  let d := corsOptions_origin origin in
  (od_allow d = true /\ od_error d = None /\ od_warnings d = []
   /\ (truthy_header origin = false
       \/ existsb (pattern_matches (default "" origin)) allowedOrigins = true))
  \/ (od_allow d = false
      /\ od_error d = Some (new_Error (cors_denied_message (default "" origin)))
      /\ od_warnings d = [cors_denied_message (default "" origin)]
      /\ truthy_header origin = true
      /\ existsb (pattern_matches (default "" origin)) allowedOrigins = false).
Proof.
  unfold corsOptions_origin.
  destruct (truthy_header origin); cbn [negb]; cbv iota zeta.
  - destruct (existsb (pattern_matches (default "" origin)) allowedOrigins);
      cbn [od_allow od_error od_warnings]; [left | right]; repeat split; auto.
  - left. cbn [od_allow od_error od_warnings]. repeat split; auto.
Qed.

Lemma truthy_header_some (o : string) : o <> "" -> truthy_header (Some o) = true.
Proof. intros Ho. simpl. now apply negb_true_iff, String.eqb_neq. Qed.

Lemma cors_denied (app : App) (ext : Collaborators) (srv : Server) (r : Request) :
  od_allow (corsOptions_origin (req_origin r)) = false ->
  let e := new_Error (cors_denied_message (default "" (req_origin r))) in
  exists cx,
    handle app ext srv r =
      Sent (error_response app e []) cx [(StCors, Failed e); (StErrorHandler1, Ended)]
    /\ (LogWarn, cors_denied_message (default "" (req_origin r))) ∈ srv_console (cx_server cx)
    /\ cx_session cx = None.
Proof.
  intros Hdeny e. rewrite handle_cors_outcome. unfold cors_stage.
  destruct (origin_decision_cases (req_origin r)) as [(Ha & _)|(_ & He & Hw & _)];
    [congruence |].
  rewrite He, Hw. cbn [fold_warnings fold_left].
  rewrite run_closing_error_plain by (cbv [plain_status status_or_500 new_Error err_status]; lia).
  simpl. eexists. split; [reflexivity |]. split; [| reflexivity].
  simpl. set_solver.
Qed.

(** C2. A request without origin (header absent or empty) is allowed; a
    request with an origin is allowed exactly when the origin matches an
    entry of the allow-list, that is when it is [http(s)://localhost] with
    an optional port, ends in [.vercel.app], or is one of the two homeswift.ai
    origins; an allowed request leaves the CORS stage with credentials
    enabled; a request with any other origin is failed by the CORS stage
    with the CORS error, which the error handler answers with no other stage
    run, and the warning is on the console. *)
Theorem C2_origin_authorization (app : App) (ext : Collaborators) (srv : Server) (r : Request) :
  let origin := req_origin r in
  let d := corsOptions_origin origin in
  let result := handle app ext srv r in
  (truthy_header origin = false -> od_allow d = true /\ od_error d = None)
  /\ (forall o, origin = Some o -> o <> "" -> (od_allow d = true <-> origin_listed o))
  /\ (od_allow d = true ->
        co_credentials corsOptions = true
        /\ exists cx,
             (cors_stage corsOptions r (initial_ctx srv) = Next cx
              \/ cors_stage corsOptions r (initial_ctx srv) = Send 204 NoBody cx)
             /\ ("Access-Control-Allow-Credentials", "true") ∈ cx_headers cx)
  /\ (forall o, origin = Some o -> o <> "" -> ~ origin_listed o ->
        let e := new_Error (cors_denied_message o) in
        exists cx,
          result = Sent (error_response app e []) cx
                     [(StCors, Failed e); (StErrorHandler1, Ended)]
          /\ res_status (error_response app e []) = 500
          /\ (LogWarn, cors_denied_message o) ∈ srv_console (server_after app r result)).
Proof.
  intros origin d result. subst origin d result.
  pose proof (origin_decision_cases (req_origin r)) as Hcases. cbv zeta in Hcases.
  assert (Hiff : forall o, req_origin r = Some o -> o <> "" ->
            (od_allow (corsOptions_origin (req_origin r)) = true <-> origin_listed o)).
  { intros o Ho Hne. rewrite Ho in Hcases |- *. simpl default in Hcases.
    rewrite <- allow_list_in_words.
    destruct Hcases as [(Ha & _ & _ & [Ht|Hm])|(Hd & _ & _ & _ & Hm)].
    - rewrite truthy_header_some in Ht by assumption. discriminate.
    - rewrite Ha, Hm. tauto.
    - rewrite Hd, Hm. tauto. }
  split; [| split; [exact Hiff | split]].
  - intros Ht. destruct Hcases as [(Ha & He & _)|(_ & _ & _ & Ht' & _)];
      [auto | congruence].
  - intros Ha. split; [reflexivity |].
    destruct Hcases as [(_ & He & Hw & _)|(Hd & _)]; [| congruence].
    unfold cors_stage. rewrite He, Hw, Ha. simpl.
    destruct (method_eqb (req_method r) OPTIONS); eexists; (split; [eauto |]);
      simpl; unfold cors_origin_headers; set_solver.
  - intros o Ho Hne Hnot e.
    pose proof (Hiff o Ho Hne) as Hi.
    assert (Hdeny : od_allow (corsOptions_origin (req_origin r)) = false).
    { destruct (od_allow (corsOptions_origin (req_origin r))); [| reflexivity].
      exfalso. apply Hnot, Hi. reflexivity. }
    destruct (cors_denied app ext srv r Hdeny) as (cx & Hrun & Hlog & Hsess).
    rewrite Ho in Hrun, Hlog. simpl default in Hrun, Hlog.
    exists cx. split; [exact Hrun |]. split; [reflexivity |].
    rewrite Hrun. unfold server_after, session_end. simpl run_ctx. now rewrite Hsess.
Qed.

(** The preflight of a request whose origin the policy rejects is not
    answered with 204: the error handler answers it with status 500. *)
Lemma C3_denied_preflight :
  let r := sample_request OPTIONS "/api/users" (Some "https://evil.example") in
  let result := handle dev_app pass_through (fresh_server dev_app) r in
  (res_status <$> run_response result) = Some 500
  /\ stages_called result = [StCors; StErrorHandler1].
Proof. vm_compute. split; reflexivity. Qed.

(** C3 (amended). For every path, an OPTIONS request whose origin the policy
    allows (absent, empty or allow-listed) is answered by the CORS stage
    itself with status 204, no body and the computed allow headers; no other
    stage runs, and the answer carries [Access-Control-Max-Age: 86400],
    twenty-four hours. An OPTIONS request from any other origin is failed by
    the CORS stage and answered by the error handler. *)
Theorem C3_preflight (app : App) (ext : Collaborators) (srv : Server) (r : Request) :
  req_method r = OPTIONS ->
  let d := corsOptions_origin (req_origin r) in
  let headers := cors_preflight_headers corsOptions (req_origin r)
                 ++ [("Content-Length", "0")] in
  let result := handle app ext srv r in
  (od_allow d = true ->
     (exists cx, result = Sent (mkResponse 204 headers NoBody) cx [(StCors, Ended)])
     /\ ("Access-Control-Allow-Methods", "GET,POST,PUT,DELETE,PATCH,OPTIONS,HEAD") ∈ headers
     /\ ("Access-Control-Allow-Headers",
         "Content-Type,Authorization,X-Requested-With,Accept,Origin,X-Access-Token,X-Refresh-Token,X-XSRF-TOKEN")
        ∈ headers
     /\ ("Access-Control-Allow-Credentials", "true") ∈ headers
     /\ ("Access-Control-Max-Age", "86400") ∈ headers
     /\ co_maxAge corsOptions = 24 * 60 * 60)
  /\ (od_allow d = false ->
        exists e cx,
          result = Sent (error_response app e []) cx
                     [(StCors, Failed e); (StErrorHandler1, Ended)])
  /\ co_preflightContinue corsOptions = false
  /\ co_optionsSuccessStatus corsOptions = 204.
Proof.
  intros Hm d headers result. subst d headers result. split; [| split; [| split; reflexivity]].
  - intros Ha. split.
    + rewrite handle_cors_outcome. unfold cors_stage.
      destruct (origin_decision_cases (req_origin r)) as [(_ & He & Hw & _)|(Hd & _)];
        [| congruence].
      rewrite He, Hw, Ha, Hm. simpl. eexists. reflexivity.
    + unfold cors_preflight_headers, cors_origin_headers.
      destruct (truthy_header (req_origin r)); vm_compute; repeat split; set_solver.
  - intros Hd. destruct (cors_denied app ext srv r Hd) as (cx & Hrun & _). eauto.
Qed.

Lemma C3_preflight_witness :
  exists cx,
    handle dev_app pass_through (fresh_server dev_app)
      (sample_request OPTIONS "/api/properties" (Some "http://localhost:5173"))
    = Sent (mkResponse 204
              (cors_preflight_headers corsOptions (Some "http://localhost:5173")
               ++ [("Content-Length", "0")]) NoBody) cx [(StCors, Ended)].
Proof.
  apply (C3_preflight dev_app pass_through (fresh_server dev_app)
           (sample_request OPTIONS "/api/properties" (Some "http://localhost:5173"))
           eq_refl).
  reflexivity.
Defined.

(** ** Order of the stages *)

Section Order.

Variable app : App.
Variable ext : Collaborators.
Variable srv : Server.
Variable r : Request.

Local Abbreviation run ls err cx := (run_layers app ext ls r err cx).



Lemma app_stack_at_root :
  app_stack app =
  [use StCors; route OPTIONS "*" StPreflight; use StHelmet; use StLimiter]
  ++ route GET "/" StRoot :: tail (tail (tail (tail (tail (app_stack app))))).
Proof. reflexivity. Qed.

Lemma app_stack_at_favicon :
  app_stack app =
  [use StCors; route OPTIONS "*" StPreflight; use StHelmet; use StLimiter;
   route GET "/" StRoot]
  ++ route GET "/favicon.ico" StFavicon
     :: tail (tail (tail (tail (tail (tail (app_stack app)))))).
Proof. reflexivity. Qed.

Lemma app_stack_at_session_test :
  app_stack app =
  (stack_before_parsers ++ stack_parsers ++ [use StSession] ++ stack_logging app)
  ++ route GET "/api/session-test" StSessionTest
     :: (route GET "/health" StHealth :: stack_auth ++ mounted_routers ++ closing_stack).
Proof.
  unfold app_stack, stack_logging. destruct (is_production (app_env app)); reflexivity.
Qed.

Lemma app_stack_at_health :
  app_stack app =
  (stack_before_parsers ++ stack_parsers ++ [use StSession] ++ stack_logging app
   ++ [route GET "/api/session-test" StSessionTest])
  ++ route GET "/health" StHealth :: (stack_auth ++ mounted_routers ++ closing_stack).
Proof.
  unfold app_stack, stack_logging. destruct (is_production (app_env app)); reflexivity.
Qed.

(** A request that reaches one of the two endpoints registered after the
    session stage has been through cookie parsing, both body parsers and the
    session stage. *)
Lemma late_endpoint_after_parsers (s : Stage) (v : Verdict) :
  s = StSessionTest \/ s = StHealth ->
  (s, v) ∈ run_trace (handle app ext srv r) ->
  exists pre post,
    run_trace (handle app ext srv r) = pre ++ (s, v) :: post
    /\ (StCookieParser, Continued) ∈ pre
    /\ (StJson, Continued) ∈ pre
    /\ (StUrlencoded, Continued) ∈ pre
    /\ (StSession, Continued) ∈ pre.
Proof.
  intros Hs Hin. rewrite handle_eq in Hin |- *.
  destruct Hs as [-> | ->].
  - rewrite app_stack_at_session_test in Hin |- *.
    apply (called_layer app ext r _ (route GET "/api/session-test" StSessionTest)) in Hin as (cx1 & trA & HrunA & _ & _ & _ & (post & Htr) & _).
    + exists trA, post. split; [exact Htr |].
      repeat split; eapply fallthrough_calls_use; try exact HrunA;
        try (unfold stack_before_parsers, stack_parsers; cbn [List.app]; in_list);
        unfold stack_before_parsers, stack_parsers, stack_logging;
        destruct (is_production (app_env app)); repeat constructor.
    + unfold stack_before_parsers, stack_parsers, stack_logging.
      destruct (is_production (app_env app)); repeat constructor.
    + reflexivity.
    + discriminate.
    + unfold stack_before_parsers, stack_parsers, stack_logging.
      destruct (is_production (app_env app)); compute_done.
    + compute_done.
  - rewrite app_stack_at_health in Hin |- *.
    apply (called_layer app ext r _ (route GET "/health" StHealth)) in Hin as (cx1 & trA & HrunA & _ & _ & _ & (post & Htr) & _).
    + exists trA, post. split; [exact Htr |].
      repeat split; eapply fallthrough_calls_use; try exact HrunA;
        try (unfold stack_before_parsers, stack_parsers; cbn [List.app]; in_list);
        unfold stack_before_parsers, stack_parsers, stack_logging;
        destruct (is_production (app_env app)); repeat constructor.
    + unfold stack_before_parsers, stack_parsers, stack_logging.
      destruct (is_production (app_env app)); repeat constructor.
    + reflexivity.
    + discriminate.
    + unfold stack_before_parsers, stack_parsers, stack_logging.
      destruct (is_production (app_env app)); compute_done.
    + compute_done.
Qed.

(** A request served by the root or the favicon endpoint has been through
    the CORS stage, helmet and the rate limiter only. *)
Lemma early_endpoint_before_parsers (s : Stage) (v : Verdict) :
  s = StRoot \/ s = StFavicon ->
  (s, v) ∈ run_trace (handle app ext srv r) ->
  v = Ended
  /\ exists pre,
       stages_called (handle app ext srv r) = pre ++ [s]
       /\ pre `sublist_of` [StCors; StPreflight; StHelmet; StLimiter; StRoot].
Proof.
  intros Hs Hin. unfold stages_called in *. rewrite handle_eq in Hin |- *.
  destruct Hs as [-> | ->].
  - rewrite app_stack_at_root in Hin |- *.
    apply (called_layer app ext r _ (route GET "/" StRoot)) in Hin as (cx1 & trA & HrunA & _ & Hsel & Hrun & _ & Hv);
      [| repeat constructor | reflexivity | discriminate | compute_done
       | unfold app_stack; destruct (is_production (app_env app)); compute_done].
    split.
    + destruct v as [| |e]; [destruct Hv as (? & Hv) | reflexivity | destruct Hv as (? & Hv)];
        discriminate Hv.
    + rewrite Hrun, (run_cons_selected app ext r) by (exact Hsel || discriminate). cbn.
      exists (fst <$> trA). split; [now rewrite fmap_app |].
      pose proof (trace_stages_sublist app ext r
                    [use StCors; route OPTIONS "*" StPreflight; use StHelmet; use StLimiter]
                    None (initial_ctx srv)) as Hsub.
      rewrite HrunA in Hsub. simpl in Hsub.
      apply (sublist_inserts_r [StRoot]) in Hsub. exact Hsub.
  - rewrite app_stack_at_favicon in Hin |- *.
    apply (called_layer app ext r _ (route GET "/favicon.ico" StFavicon)) in Hin as (cx1 & trA & HrunA & _ & Hsel & Hrun & _ & Hv);
      [| repeat constructor | reflexivity | discriminate | compute_done
       | unfold app_stack; destruct (is_production (app_env app)); compute_done].
    split.
    + destruct v as [| |e]; [destruct Hv as (? & Hv) | reflexivity | destruct Hv as (? & Hv)];
        discriminate Hv.
    + rewrite Hrun, (run_cons_selected app ext r) by (exact Hsel || discriminate). cbn.
      exists (fst <$> trA). split; [now rewrite fmap_app |].
      pose proof (trace_stages_sublist app ext r
                    [use StCors; route OPTIONS "*" StPreflight; use StHelmet; use StLimiter;
                     route GET "/" StRoot]
                    None (initial_ctx srv)) as Hsub.
      rewrite HrunA in Hsub. exact Hsub.
Qed.

End Order.

(** The request [GET /] is answered by the root endpoint before cookie
    parsing, body parsing and the session stage have run. *)
Lemma C1_root_served_before_parsers :
  let result := handle dev_app pass_through (fresh_server dev_app)
                  (sample_request GET "/" None) in
  stages_called result = [StCors; StHelmet; StLimiter; StRoot]
  /\ run_trace result = [(StCors, Continued); (StHelmet, Continued);
                         (StLimiter, Continued); (StRoot, Ended)].
Proof. vm_compute. split; reflexivity. Qed.

(** C1 (amended). The stages are registered, and for every request run, in
    this order: CORS evaluation (which answers preflights), the preflight
    route, security headers, rate limit, the root and favicon endpoints,
    cookie parsing, JSON and urlencoded body parsing, session resolution,
    request logging (non-production only), the session-test and health
    endpoints, the authentication chain, the mounted routers, the not-found
    fallback and the two error handlers. A request served by the session-test
    or the health endpoint has passed cookie parsing, body parsing and
    session resolution; a request served by the root or the favicon endpoint
    has passed the CORS stage, the security headers and the rate limiter
    only. *)
Theorem C1_stage_order (app : App) (ext : Collaborators) (srv : Server) (r : Request) :
  let result := handle app ext srv r in
  (layer_stage <$> app_stack app) =
    [StCors; StPreflight; StHelmet; StLimiter; StRoot; StFavicon;
     StCookieParser; StJson; StUrlencoded; StSession]
    ++ (if is_production (app_env app) then [] else [StMorgan])
    ++ [StSessionTest; StHealth; StJwtAuth; StCheckRememberToken; StLoadUser;
        StAuthRoutes; StUserRoutes; StSearchRoutes; StTestRoutes; StPropertyRouter;
        StNotFound; StErrorHandler1; StErrorHandler2]
  /\ stages_called result `sublist_of` (layer_stage <$> app_stack app)
  /\ (forall s v, s = StSessionTest \/ s = StHealth -> (s, v) ∈ run_trace result ->
        exists pre post,
          run_trace result = pre ++ (s, v) :: post
          /\ (StCookieParser, Continued) ∈ pre
          /\ (StJson, Continued) ∈ pre
          /\ (StUrlencoded, Continued) ∈ pre
          /\ (StSession, Continued) ∈ pre)
  /\ (forall s v, s = StRoot \/ s = StFavicon -> (s, v) ∈ run_trace result ->
        v = Ended
        /\ exists pre,
             stages_called result = pre ++ [s]
             /\ pre `sublist_of` [StCors; StPreflight; StHelmet; StLimiter; StRoot]).
Proof.
  intros result. subst result. split; [| split; [| split]].
  - unfold app_stack. destruct (is_production (app_env app)); reflexivity.
  - apply trace_stages_sublist.
  - apply late_endpoint_after_parsers.
  - apply early_endpoint_before_parsers.
Qed.

(** ** Errors and the fallback *)

Section Errors.

Variable app : App.
Variable ext : Collaborators.
Variable srv : Server.
Variable r : Request.

Local Abbreviation run ls err cx := (run_layers app ext ls r err cx).

Lemma run_to_error_handler (ls : list Layer) (e : JsError) (cx : Ctx) :
  Forall normal_layer ls ->
  run (ls ++ closing_stack) (Some e) cx = run closing_stack (Some e) cx.
Proof.
  intros Hls. rewrite run_layers_app, run_layers_error_skip by assumption.
  unfold run_then. now rewrite run_prepend_nil.
Qed.






Lemma plain_status_valid (e : JsError) :
  plain_status e -> valid_status (status_or_500 e) = true.
Proof. apply valid_status_plain. Qed.


(** The trace of the two error handlers. *)
Lemma closing_trace (e : JsError) (cx : Ctx) :
  run_trace (run closing_stack (Some e) cx) =
  if valid_status (status_or_500 e) then [(StErrorHandler1, Ended)]
  else [(StErrorHandler1, Failed (invalid_status_error (status_or_500 e)));
        (StErrorHandler2, Ended)].
Proof.
  destruct (valid_status (status_or_500 e)) eqn:Hvalid.
  - now rewrite run_closing_error.
  - now rewrite run_closing_refused.
Qed.




End Errors.

Lemma wire_body_sent (r : Request) (resp : Response) :
  req_method r <> HEAD -> 400 <= res_status resp ->
  wire_body r resp = res_body resp.
Proof.
  intros Hm Hst. unfold wire_body.
  assert (Hhead : method_eqb (req_method r) HEAD = false).
  { destruct (req_method r); try reflexivity. contradiction. }
  rewrite Hhead. cbn [orb].
  assert (H1 : (res_status resp <? 200) = false) by (apply Z.ltb_ge; lia).
  assert (H2 : (res_status resp =? 204) = false) by (apply Z.eqb_neq; lia).
  assert (H3 : (res_status resp =? 205) = false) by (apply Z.eqb_neq; lia).
  assert (H4 : (res_status resp =? 304) = false) by (apply Z.eqb_neq; lia).
  now rewrite H1, H2, H3, H4, andb_false_r.
Qed.

Lemma wire_body_head (r : Request) (resp : Response) :
  req_method r = HEAD -> wire_body r resp = NoBody.
Proof. intros Hm. unfold wire_body. now rewrite Hm. Qed.



(** ** What the first stages leave untouched *)

Section Frame.

Variable app : App.
Variable ext : Collaborators.
Variable r : Request.

Local Abbreviation run ls err cx := (run_layers app ext ls r err cx).

Lemma keeps_state_refl (cx : Ctx) : keeps_state cx cx.
Proof. repeat split. Qed.

Lemma keeps_state_trans (cx1 cx2 cx3 : Ctx) :
  keeps_state cx1 cx2 -> keeps_state cx2 cx3 -> keeps_state cx1 cx3.
Proof. unfold keeps_state. intuition congruence. Qed.

Lemma fold_warnings_keeps (ws : list string) :
  forall cx, keeps_state cx (fold_warnings ws cx).
Proof.
  induction ws as [|w ws IH]; intros cx; [apply keeps_state_refl |].
  eapply keeps_state_trans; [| apply IH]. repeat split.
Qed.

Lemma cors_next_keeps (cx1 cx2 : Ctx) :
  cors_stage corsOptions r cx1 = Next cx2 -> keeps_state cx1 cx2.
Proof.
  unfold cors_stage.
  destruct (od_error (corsOptions_origin (req_origin r))); [discriminate |].
  destruct (negb (od_allow (corsOptions_origin (req_origin r)))).
  - intros [= <-]. apply fold_warnings_keeps.
  - destruct (method_eqb (req_method r) OPTIONS); simpl; [discriminate |].
    intros [= <-]. eapply keeps_state_trans; [apply fold_warnings_keeps |].
    repeat split.
Qed.

Lemma limiter_next_keeps (cx1 cx2 : Ctx) :
  limiter_stage app r cx1 = Next cx2 -> keeps_state cx1 cx2.
Proof.
  unfold limiter_stage.
  destruct (limiter_increment _ _ _ _) as [hits total].
  destruct (rl_max (app_limiter app) <? total); [discriminate |].
  intros [= <-]. repeat split.
Qed.

Lemma cookie_parser_next_keeps (cx1 cx2 : Ctx) :
  cookie_parser_stage r cx1 = Next cx2 -> keeps_state cx1 cx2.
Proof.
  unfold cookie_parser_stage. destruct (cx_cookies cx1); intros [= <-]; repeat split.
Qed.

Lemma before_parsers_keep (l : Layer) (cx1 cx2 : Ctx) :
  l ∈ stack_before_parsers ->
  stage_handler app ext (layer_stage l) r cx1 = Next cx2 -> keeps_state cx1 cx2.
Proof.
  unfold stack_before_parsers. rewrite !elem_of_cons, elem_of_nil.
  intros [->|[->|[->|[->|[->|[->|[]]]]]]]; simpl.
  - apply cors_next_keeps.
  - apply cors_next_keeps.
  - intros [= <-]. repeat split.
  - apply limiter_next_keeps.
  - discriminate.
  - discriminate.
Qed.

Lemma body_or_empty_keeps (cx : Ctx) :
  cx_session (body_or_empty cx) = cx_session cx
  /\ cx_server (body_or_empty cx) = cx_server cx
  /\ cx_headers (body_or_empty cx) = cx_headers cx
  /\ cx_parsed (body_or_empty cx) = cx_parsed cx.
Proof. unfold body_or_empty. repeat case_match; repeat split. Qed.

Lemma body_parser_next_keeps (accepts : MediaType -> bool) (cx1 cx2 : Ctx) :
  body_parser accepts limit_10mb r cx1 = Next cx2 ->
  cx_session cx2 = cx_session cx1
  /\ srv_sessions (cx_server cx2) = srv_sessions (cx_server cx1).
Proof.
  unfold body_parser. destruct (body_or_empty_keeps cx1) as (Hs & Hm & _).
  repeat case_match; try discriminate; intros [= <-]; simpl; rewrite ?Hs, ?Hm; auto.
Qed.

Lemma before_parsers_normal : Forall normal_layer stack_before_parsers.
Proof. repeat constructor. Qed.

(** A request that gets past the first six layers comes out with no body,
    no session and the session store as it was. *)
Lemma before_parsers_frame (srv : Server) (cx : Ctx) (tr : Trace) :
  run stack_before_parsers None (initial_ctx srv) = Unhandled None cx tr ->
  keeps_state (initial_ctx srv) cx.
Proof.
  apply (fallthrough_invariant app ext r (keeps_state (initial_ctx srv))).
  - apply before_parsers_normal.
  - intros l cx1 cx2 Hl H1 Hnext. eapply keeps_state_trans; [exact H1 |].
    eapply before_parsers_keep; eauto.
  - apply keeps_state_refl.
Qed.

Lemma app_stack_at_cookie_parser :
  app_stack app =
  stack_before_parsers
  ++ use StCookieParser
     :: ([use StJson; use StUrlencoded]
         ++ stack_after_parsers app ++ mounted_routers ++ closing_stack).
Proof.
  unfold app_stack, stack_after_parsers, stack_logging.
  destruct (is_production (app_env app)); reflexivity.
Qed.

Lemma app_stack_at_load_user :
  app_stack app =
  (stack_before_parsers ++ stack_parsers ++ [use StSession] ++ stack_logging app
   ++ [route GET "/api/session-test" StSessionTest; route GET "/health" StHealth;
       use StJwtAuth; use StCheckRememberToken])
  ++ use StLoadUser :: (mounted_routers ++ closing_stack).
Proof.
  unfold app_stack, stack_logging. destruct (is_production (app_env app)); reflexivity.
Qed.

Lemma after_parsers_normal : Forall normal_layer (stack_after_parsers app).
Proof.
  unfold stack_after_parsers, stack_logging.
  destruct (is_production (app_env app)); repeat constructor.
Qed.

Lemma mounted_normal : Forall normal_layer mounted_routers.
Proof. repeat constructor. Qed.

Lemma rest_after_error (pre : list Layer) (e : JsError) (cx : Ctx) :
  Forall normal_layer pre ->
  run (pre ++ stack_after_parsers app ++ mounted_routers ++ closing_stack) (Some e) cx =
  run closing_stack (Some e) cx.
Proof.
  intros Hpre. rewrite !app_assoc. apply run_to_error_handler.
  rewrite !Forall_app. auto using after_parsers_normal, mounted_normal.
Qed.

(** Past the authentication chain, a path that no mounted router takes goes
    to the fallback. *)
Lemma fallback_when_no_router (srv : Server) :
  (forall l, l ∈ mounted_routers -> matches l (req_path r) = false) ->
  (StLoadUser, Continued) ∈ run_trace (handle app ext srv r) ->
  exists cx pre,
    handle app ext srv r =
      Sent (mkResponse 404 (cx_headers cx) (JsonBody not_found_body)) cx
        (pre ++ [(StLoadUser, Continued); (StNotFound, Ended)]).
Proof.
  intros Hnone Hin. rewrite handle_eq in Hin |- *. rewrite app_stack_at_load_user in Hin |- *.
  apply (called_layer app ext r _ (use StLoadUser)) in Hin
    as (cx1 & trA & HrunA & _ & Hsel & Hrun & _ & (cx2 & Hnext)).
  - rewrite Hrun, run_cons_use. cbn [layer_stage use] in Hnext. rewrite Hnext.
    unfold mounted_routers in Hnone |- *. cbn [List.app].
    do 5 (rewrite (run_cons_unselected app ext r)
            by (discriminate || (rewrite mount_selected; apply Hnone; in_list))).
    rewrite run_closing_open. { cbn [run_prepend]. eexists _, trA. reflexivity. }
    refine (fallthrough_decodes app ext r _ (route OPTIONS "*" StPreflight) _ _ eq_refl
              _ _ _ HrunA).
    + unfold stack_before_parsers, stack_parsers, stack_logging.
      destruct (is_production (app_env app)); repeat constructor.
    + unfold stack_before_parsers. cbn [List.app]. in_list.
  - unfold stack_before_parsers, stack_parsers, stack_logging.
    destruct (is_production (app_env app)); repeat constructor.
  - reflexivity.
  - discriminate.
  - unfold stack_before_parsers, stack_parsers, stack_logging.
    destruct (is_production (app_env app)); compute_done.
  - compute_done.
Qed.

End Frame.

(** ** The not-found fallback *)

Lemma wire_body_plain (r : Request) (resp : Response) :
  req_method r <> HEAD -> res_status resp = 404 -> wire_body r resp = res_body resp.
Proof. intros Hm Hst. apply wire_body_sent; [exact Hm | lia]. Qed.

(** The preflight of a path that matches no endpoint and no mounted prefix
    is answered with status 204, not 404. *)
Lemma C8_preflight_of_unknown_path :
  let r := sample_request OPTIONS "/api/nonexistent" None in
  let result := handle dev_app pass_through (fresh_server dev_app) r in
  unrouted (req_path r) = true
  /\ (res_status <$> run_response result) = Some 204
  /\ stages_called result = [StCors].
Proof. vm_compute. repeat split; reflexivity. Qed.

(** C8 (amended). A request whose path matches no fixed endpoint and no
    mounted prefix, and which every stage before route dispatch has passed on
    (the last of them the user loader), is answered by the fallback with
    status 404 and exactly the body
    [{ success: false, error: "Route not found" }], which is sent unless the
    request is a HEAD request. *)
Theorem C8_not_found (app : App) (ext : Collaborators) (srv : Server) (r : Request) :
  unrouted (req_path r) = true ->
  (StLoadUser, Continued) ∈ run_trace (handle app ext srv r) ->
  exists headers cx pre,
    let resp := mkResponse 404 headers (JsonBody not_found_body) in
    handle app ext srv r =
      Sent resp cx (pre ++ [(StLoadUser, Continued); (StNotFound, Ended)])
    /\ not_found_body = JObj [("success", JBool false); ("error", JStr "Route not found")]
    /\ (req_method r <> HEAD -> wire_body r resp = JsonBody not_found_body)
    /\ (req_method r = HEAD -> wire_body r resp = NoBody).
Proof.
  intros Hpath Hin.
  destruct (fallback_when_no_router app ext r srv) as (cx & pre & Hrun); [| exact Hin |].
  - intros l Hl. unfold unrouted in Hpath. rewrite forallb_forall in Hpath.
    apply negb_true_iff, Hpath, list_elem_of_In, elem_of_app. now right.
  - exists (cx_headers cx), cx, pre. cbv zeta. split; [exact Hrun |].
    split; [reflexivity |]. split.
    + intros Hm. now apply wire_body_plain.
    + apply wire_body_head.
Qed.

Lemma C8_not_found_witness :
  exists headers cx pre,
    handle dev_app pass_through (fresh_server dev_app)
      (sample_request GET "/api/nonexistent" None)
    = Sent (mkResponse 404 headers (JsonBody not_found_body)) cx
        (pre ++ [(StLoadUser, Continued); (StNotFound, Ended)]).
Proof.
  destruct (C8_not_found dev_app pass_through (fresh_server dev_app)
              (sample_request GET "/api/nonexistent" None))
    as (headers & cx & pre & Hrun & _).
  - vm_compute. reflexivity.
  - vm_compute. set_solver.
  - exists headers, cx, pre. exact Hrun.
Defined.
(** ** Body size limit *)

Lemma fold_warnings_parsed (ws : list string) :
  forall cx, cx_parsed (fold_warnings ws cx) = cx_parsed cx.
Proof.
  induction ws as [|w ws IH]; intros cx; [reflexivity |].
  unfold fold_warnings in *. simpl. now rewrite IH.
Qed.

Section BodyParser.

Variable r : Request.
Variable p : Payload.
Hypothesis Hpayload : req_payload r = Some p.
Hypothesis Hsupported : payload_refusal p = None.

Lemma body_parser_too_large (accepts : MediaType -> bool) (cx : Ctx) :
  cx_parsed cx = false -> accepts (payload_type p) = true ->
  limit_10mb < payload_bytes p ->
  body_parser accepts limit_10mb r cx
  = Throw entity_too_large (cx_set_parsed (body_or_empty cx)).
Proof.
  intros Hb Ha Hlt. unfold body_parser. rewrite Hb, Hpayload, Ha, Hsupported. simpl.
  apply Z.ltb_lt in Hlt. now rewrite Hlt.
Qed.

Lemma body_parser_parsed (accepts : MediaType -> bool) (cx : Ctx) (v : json) :
  cx_parsed cx = false -> accepts (payload_type p) = true ->
  payload_bytes p <= limit_10mb -> payload_decoded p = Parsed v ->
  body_parser accepts limit_10mb r cx
  = Next (cx_set_body v (cx_set_parsed (body_or_empty cx))).
Proof.
  intros Hb Ha Hle Hv. unfold body_parser. rewrite Hb, Hpayload, Ha, Hsupported. simpl.
  apply Z.ltb_ge in Hle. now rewrite Hle, Hv.
Qed.

Lemma body_parser_rejected (accepts : MediaType -> bool) (cx : Ctx) (e : JsError) :
  cx_parsed cx = false -> accepts (payload_type p) = true ->
  payload_bytes p <= limit_10mb -> payload_decoded p = Rejected e ->
  body_parser accepts limit_10mb r cx = Throw e (cx_set_parsed (body_or_empty cx)).
Proof.
  intros Hb Ha Hle Hv. unfold body_parser. rewrite Hb, Hpayload, Ha, Hsupported. simpl.
  apply Z.ltb_ge in Hle. now rewrite Hle, Hv.
Qed.

Lemma body_parser_other_type (accepts : MediaType -> bool) (cx : Ctx) :
  cx_parsed cx = false -> accepts (payload_type p) = false ->
  body_parser accepts limit_10mb r cx = Next (body_or_empty cx).
Proof. intros Hb Ha. unfold body_parser. now rewrite Hb, Hpayload, Ha. Qed.

Lemma body_parser_already (accepts : MediaType -> bool) (cx : Ctx) :
  cx_parsed cx = true -> body_parser accepts limit_10mb r cx = Next cx.
Proof. intros Hb. unfold body_parser. now rewrite Hb. Qed.

Variable app : App.
Variable ext : Collaborators.

Local Abbreviation run ls err cx := (run_layers app ext ls r err cx).
Local Abbreviation parser := (if is_json (payload_type p) then StJson else StUrlencoded).
Local Abbreviation skipped :=
  (if is_json (payload_type p) then [] else [(StJson, Continued)] : Trace).

Hypothesis Htype : payload_type p = MediaJson \/ payload_type p = MediaUrlencoded.

(** What the two parsers make of the request, from a context in which no
    body has been read. *)
Lemma parsers_fail (cx : Ctx) (e : JsError) :
  cx_parsed cx = false ->
  (limit_10mb < payload_bytes p /\ e = entity_too_large)
  \/ (payload_bytes p <= limit_10mb /\ payload_decoded p = Rejected e) ->
  exists cxf,
    run ([use StJson; use StUrlencoded] ++ stack_from_session app) None cx
    = run_prepend (skipped ++ [(parser, Failed e)]) (run closing_stack (Some e) cxf).
Proof.
  intros Hcx Hcase. unfold stack_from_session. cbn [List.app].
  rewrite run_cons_use. cbn [stage_handler]. unfold json_stage.
  assert (Hthrow : forall accepts c, cx_parsed c = false -> accepts (payload_type p) = true ->
            body_parser accepts limit_10mb r c = Throw e (cx_set_parsed (body_or_empty c))).
  { intros accepts c Hc Ha. destruct Hcase as [[Hlt ->]|[Hle Hrej]].
    - now apply body_parser_too_large.
    - now apply body_parser_rejected. }
  destruct Htype as [Ht|Ht]; rewrite Ht; cbn [is_json].
  - rewrite Hthrow by (auto; now rewrite Ht).
    pose proof (rest_after_error app ext r [use StUrlencoded] e
                  (cx_set_parsed (body_or_empty cx))) as Hr.
    cbn [List.app] in Hr. rewrite Hr by repeat constructor. eauto.
  - rewrite (body_parser_other_type is_json cx) by (auto; now rewrite Ht).
    rewrite run_cons_use. cbn [stage_handler]. unfold urlencoded_stage.
    rewrite Hthrow; [| | now rewrite Ht].
    2:{ now destruct (body_or_empty_keeps cx) as (_ & _ & _ & ->). }
    pose proof (rest_after_error app ext r [] e
                  (cx_set_parsed (body_or_empty (body_or_empty cx)))) as Hr.
    cbn [List.app] in Hr. rewrite Hr by constructor.
    rewrite run_prepend_app. eauto.
Qed.

Lemma parsers_attach (cx : Ctx) (v : json) :
  cx_parsed cx = false ->
  payload_bytes p <= limit_10mb -> payload_decoded p = Parsed v ->
  exists cxv,
    cx_body cxv = Some v
    /\ run ([use StJson; use StUrlencoded] ++ stack_from_session app) None cx
       = run_prepend [(StJson, Continued); (StUrlencoded, Continued)]
           (run (stack_from_session app) None cxv).
Proof.
  intros Hcx Hle Hv. cbn [List.app].
  rewrite run_cons_use. cbn [stage_handler]. unfold json_stage.
  destruct Htype as [Ht|Ht].
  - rewrite (body_parser_parsed is_json cx v) by (auto; now rewrite Ht).
    rewrite run_cons_use. cbn [stage_handler]. unfold urlencoded_stage.
    rewrite body_parser_already by reflexivity.
    rewrite run_prepend_app. eexists. split; [| reflexivity]. reflexivity.
  - rewrite (body_parser_other_type is_json cx) by (auto; now rewrite Ht).
    rewrite run_cons_use. cbn [stage_handler]. unfold urlencoded_stage.
    rewrite (body_parser_parsed is_urlencoded _ v); [| | now rewrite Ht | auto | auto].
    2:{ now destruct (body_or_empty_keeps cx) as (_ & _ & _ & ->). }
    rewrite run_prepend_app. eexists. split; [| reflexivity]. reflexivity.
Qed.

End BodyParser.

Section Reach.

Variable app : App.
Variable ext : Collaborators.
Variable srv : Server.
Variable r : Request.

Local Abbreviation run ls err cx := (run_layers app ext ls r err cx).

Lemma before_parsers_unparsed (cx : Ctx) (tr : Trace) :
  run stack_before_parsers None (initial_ctx srv) = Unhandled None cx tr ->
  cx_parsed cx = false.
Proof.
  apply (fallthrough_invariant app ext r (fun c => cx_parsed c = false));
    [apply before_parsers_normal | | reflexivity].
  intros l cx1 cx2 Hl H1. unfold stack_before_parsers in Hl.
  rewrite !elem_of_cons, elem_of_nil in Hl.
  assert (Hcors : cors_stage corsOptions r cx1 = Next cx2 -> cx_parsed cx2 = false).
  { unfold cors_stage.
    destruct (od_error (corsOptions_origin (req_origin r))); [discriminate |].
    destruct (negb (od_allow (corsOptions_origin (req_origin r)))).
    - intros [= <-]. now rewrite fold_warnings_parsed.
    - destruct (method_eqb (req_method r) OPTIONS); simpl; [discriminate |].
      intros [= <-]. simpl. now rewrite fold_warnings_parsed. }
  destruct Hl as [->|[->|[->|[->|[->|[->|[]]]]]]]; simpl.
  - exact Hcors.
  - exact Hcors.
  - now intros [= <-].
  - unfold limiter_stage. destruct (limiter_increment _ _ _ _) as [hits total].
    destruct (rl_max (app_limiter app) <? total); [discriminate |]. now intros [= <-].
  - discriminate.
  - discriminate.
Qed.

(** A request that gets past the cookie parser enters the body parsers with
    no body read. *)
Lemma reach_parsers :
  (StCookieParser, Continued) ∈ run_trace (handle app ext srv r) ->
  exists cx pre,
    cx_parsed cx = false
    /\ all_continued pre
    /\ (forall s, s ∈ fst <$> pre -> s ∈ early_stages)
    /\ handle app ext srv r
       = run_prepend pre
           (run ([use StJson; use StUrlencoded] ++ stack_from_session app) None cx).
Proof.
  intros Hin. rewrite handle_eq in Hin |- *. rewrite app_stack_at_cookie_parser in Hin |- *.
  apply (called_layer app ext r _ (use StCookieParser)) in Hin
    as (cx1 & trA & HrunA & HtrA & Hsel & Hrun & _ & (cx2 & Hnext));
    [| apply before_parsers_normal | reflexivity | discriminate | compute_done
     | unfold stack_after_parsers, stack_logging;
       destruct (is_production (app_env app)); compute_done].
  pose proof (before_parsers_unparsed cx1 trA HrunA) as Hp1.
  cbn [layer_stage use stage_handler] in Hnext.
  assert (Hp2 : cx_parsed cx2 = false).
  { unfold cookie_parser_stage in Hnext. destruct (cx_cookies cx1); now injection Hnext as <-. }
  pose proof (trace_stages_sublist app ext r stack_before_parsers None (initial_ctx srv))
    as Hsub.
  rewrite HrunA in Hsub. simpl in Hsub.
  exists cx2, (trA ++ [(StCookieParser, Continued)]). split; [exact Hp2 |]. split.
  { apply Forall_app. split; [exact HtrA | repeat constructor]. }
  split.
  { intros s Hs. rewrite fmap_app in Hs. apply elem_of_app in Hs as [Hs|Hs].
    - apply (sublist_subseteq _ _ Hsub) in Hs. simpl in Hs. unfold early_stages.
      list_cases Hs; in_list.
    - simpl in Hs. unfold early_stages. list_cases Hs; in_list. }
  rewrite Hrun, run_cons_use. cbn [stage_handler]. rewrite Hnext.
  now rewrite run_prepend_app.
Qed.

End Reach.

(** A JSON body of five bytes that does not parse is refused with status
    400, though it is far below the limit. *)
Lemma C10_malformed_body_refused :
  let r := post_request "/api/users" malformed_json in
  let result := handle dev_app pass_through (fresh_server dev_app) r in
  payload_bytes malformed_json <= limit_10mb
  /\ (res_status <$> run_response result) = Some 400
  /\ stages_called result
     = [StCors; StHelmet; StLimiter; StCookieParser; StJson; StErrorHandler1]
  /\ cx_body (run_ctx result) = Some (JObj []).
Proof. vm_compute. repeat split; try reflexivity; discriminate. Qed.

(** C10 (amended). With [limit: '10mb'], that is 10485760 bytes: for a
    request that reaches the body parsers with a JSON or urlencoded body in a
    charset and encoding the parser supports, a body within the limit that
    decodes is parsed, and the stages from the session stage on run with the
    parsed value as the request's body; a body within the limit that does not
    decode makes the parser fail with the decoder's error; a longer body
    makes the parser fail with status 413. The failure goes to the error
    handlers, the first of which answers with the status when the status is
    an ordinary one, and neither the session stage nor the authentication
    chain nor any route runs. *)
Theorem C10_body_limit (app : App) (ext : Collaborators) (srv : Server) (r : Request)
    (p : Payload) :
  req_payload r = Some p ->
  payload_type p = MediaJson \/ payload_type p = MediaUrlencoded ->
  payload_refusal p = None ->
  (StCookieParser, Continued) ∈ run_trace (handle app ext srv r) ->
  let result := handle app ext srv r in
  let parser := if is_json (payload_type p) then StJson else StUrlencoded in
  let fails (e : JsError) :=
    (exists pre post, run_trace result = pre ++ (parser, Failed e) :: post
                      /\ all_continued pre)
    /\ (forall s, s ∈ stages_called result ->
          s ∈ early_stages ++ [StErrorHandler1; StErrorHandler2])
    /\ (plain_status e ->
        exists pre headers cx,
          result = Sent (error_response app e headers) cx
                     (pre ++ [(parser, Failed e); (StErrorHandler1, Ended)])) in
  limit_10mb = 10485760
  /\ (payload_bytes p <= limit_10mb ->
      forall v, payload_decoded p = Parsed v ->
        exists cx pre,
          result = run_prepend pre (run_layers app ext (stack_from_session app) r None cx)
          /\ cx_body cx = Some v
          /\ (parser, Continued) ∈ pre
          /\ all_continued pre)
  /\ (payload_bytes p <= limit_10mb ->
      forall e, payload_decoded p = Rejected e -> fails e)
  /\ (limit_10mb < payload_bytes p ->
      fails entity_too_large
      /\ err_status entity_too_large = Some 413
      /\ plain_status entity_too_large).
Proof.
  intros Hp Ht Hsup Hin result parser fails. subst result parser.
  split; [reflexivity |].
  destruct (reach_parsers app ext srv r Hin) as (cx & pre & Hcx & Hpre & Hearly & Hrun).
  assert (Hfails : forall e,
            (limit_10mb < payload_bytes p /\ e = entity_too_large)
            \/ (payload_bytes p <= limit_10mb /\ payload_decoded p = Rejected e) ->
            fails e).
  { intros e Hcase.
    destruct (parsers_fail r p Hp Hsup app ext Ht cx e Hcx Hcase) as (cxf & Hparsers).
    assert (Hskipped : all_continued
                         (if is_json (payload_type p) then [] else [(StJson, Continued)])
                       /\ forall s, s ∈ fst <$> (if is_json (payload_type p) then []
                                                 else [(StJson, Continued)])
                                    -> s ∈ early_stages).
    { destruct (is_json (payload_type p)); (split; [repeat constructor |]);
        intros s Hs; simpl in Hs; unfold early_stages; list_cases Hs; in_list. }
    destruct Hskipped as [Hsk1 Hsk2].
    assert (Hparser : (if is_json (payload_type p) then StJson else StUrlencoded)
                      ∈ early_stages).
    { destruct (is_json (payload_type p)); unfold early_stages; in_list. }
    unfold fails. rewrite Hrun, Hparsers, run_prepend_app. split; [| split].
    - rewrite run_trace_prepend, app_assoc, <- (app_assoc _ [_]). cbn [List.app].
      eexists _, _. split; [reflexivity |]. apply Forall_app. now split.
    - intros s. unfold stages_called. rewrite run_trace_prepend, !fmap_app, closing_trace.
      rewrite !elem_of_app. intros [[Hs|[Hs|Hs]]|Hs].
      + left. now apply Hearly.
      + left. now apply Hsk2.
      + left. simpl in Hs. apply list_elem_of_singleton in Hs. now subst s.
      + right. destruct (valid_status (status_or_500 e)); simpl in Hs;
          list_cases Hs; in_list.
    - intros Hplain. rewrite run_closing_error_plain by exact Hplain.
      cbn [run_prepend]. eexists _, _, _. rewrite app_assoc, <- (app_assoc _ [_]).
      reflexivity. }
  split; [| split].
  - intros Hle v Hv.
    destruct (parsers_attach r p Hp Hsup app ext Ht cx v Hcx Hle Hv) as (cxv & Hbody & Hparsers).
    exists cxv, (pre ++ [(StJson, Continued); (StUrlencoded, Continued)]).
    rewrite Hrun, Hparsers, run_prepend_app. split; [reflexivity |].
    split; [exact Hbody |]. split.
    + apply elem_of_app. right. destruct (is_json (payload_type p)); in_list.
    + apply Forall_app. split; [exact Hpre | repeat constructor].
  - intros Hle e He. apply Hfails. right. now split.
  - intros Hlt. split; [apply Hfails; left; now split |].
    split; [reflexivity |].
    unfold plain_status. change (status_or_500 entity_too_large) with 413. lia.
Qed.

Lemma C10_body_limit_witness :
  let p := mkPayload MediaJson (11 * 1024 * 1024) None (Parsed (JObj [])) in
  let r := post_request "/api/properties" p in
  exists pre headers cx,
    handle dev_app pass_through (fresh_server dev_app) r =
      Sent (error_response dev_app entity_too_large headers) cx
        (pre ++ [(StJson, Failed entity_too_large); (StErrorHandler1, Ended)]).
Proof.
  intros p r.
  assert (Hreach : (StCookieParser, Continued)
                   ∈ run_trace (handle dev_app pass_through (fresh_server dev_app) r)).
  { vm_compute. set_solver. }
  pose proof (C10_body_limit dev_app pass_through (fresh_server dev_app) r p
                eq_refl (or_introl eq_refl) eq_refl Hreach) as Hthm.
  cbv zeta in Hthm. destruct Hthm as (_ & _ & _ & Hbig).
  destruct Hbig as ((_ & _ & Hsent) & _ & Hplain); [reflexivity |].
  exact (Hsent Hplain).
Defined.

(** ** The session-test endpoint *)

Lemma round_double_exact (z : Z) : - 2 ^ 53 <= z <= 2 ^ 53 -> round_double z = z.
Proof.
  intros H. unfold round_double.
  assert (Hm : (Z.abs z <=? 2 ^ 53) = true) by (apply Z.leb_le; lia).
  now rewrite Hm.
Qed.

Lemma js_increment_exact (n : Z) : - 2 ^ 53 <= n < 2 ^ 53 -> js_increment n = n + 1.
Proof. intros H. unfold js_increment. apply round_double_exact. lia. Qed.

Lemma bump_views_some (d : SessionData) : exists n, sess_views (bump_views d) = Some n.
Proof. unfold bump_views, set_views. simpl. eauto. Qed.

Lemma bump_views_fresh : bump_views empty_session = mkSessionData (Some 1) [].
Proof. reflexivity. Qed.

Lemma bump_views_next (d : SessionData) (n : Z) :
  sess_views d = Some n -> - 2 ^ 53 <= n < 2 ^ 53 ->
  sess_views (bump_views d) = Some (n + 1).
Proof.
  intros Hd Hn. unfold bump_views. rewrite Hd. simpl.
  destruct (Z.eqb_spec n 0) as [->|Hne]; simpl.
  - reflexivity.
  - rewrite Hd. simpl. now rewrite js_increment_exact.
Qed.

Lemma bump_views_not_empty (d : SessionData) : bump_views d <> empty_session.
Proof. unfold bump_views, set_views, empty_session. discriminate. Qed.

Section SessionTest.

Variable app : App.
Variable ext : Collaborators.
Variable srv : Server.
Variable r : Request.

Local Abbreviation run ls err cx := (run_layers app ext ls r err cx).
Local Abbreviation maxAge := (cookie_maxAge (sc_cookie (app_session app))).

Lemma parsers_keep_session (l : Layer) (cx1 cx2 : Ctx) :
  l ∈ stack_parsers ->
  stage_handler app ext (layer_stage l) r cx1 = Next cx2 ->
  cx_session cx2 = cx_session cx1
  /\ srv_sessions (cx_server cx2) = srv_sessions (cx_server cx1).
Proof.
  unfold stack_parsers. rewrite !elem_of_cons, elem_of_nil.
  intros [->|[->|[->|[]]]]; simpl.
  - intros H. destruct (cookie_parser_next_keeps r cx1 cx2 H) as (_ & ? & ?). auto.
  - apply body_parser_next_keeps.
  - apply body_parser_next_keeps.
Qed.

Lemma logging_keeps (l : Layer) (cx1 cx2 : Ctx) :
  l ∈ stack_logging app ->
  stage_handler app ext (layer_stage l) r cx1 = Next cx2 -> cx2 = cx1.
Proof.
  unfold stack_logging. destruct (is_production (app_env app)).
  - intros H. now apply elem_of_nil in H.
  - intros H. apply list_elem_of_singleton in H as ->. simpl. now intros [= <-].
Qed.

Lemma parsers_normal : Forall normal_layer stack_parsers.
Proof. repeat constructor. Qed.

(** The context in which the session-test handler runs: the session stage
    has been called on a context without session whose store is the
    server's, and nothing has changed since. *)
Lemma session_test_context :
  (StSessionTest, Ended) ∈ run_trace (handle app ext srv r) ->
  exists cxb cxs pre st b cx2,
    cx_session cxb = None
    /\ srv_sessions (cx_server cxb) = srv_sessions srv
    /\ session_stage app r cxb = Next cxs
    /\ session_test_handler r cxs = Send st b cx2
    /\ handle app ext srv r =
       Sent (mkResponse st (cx_headers cx2) b) cx2 (pre ++ [(StSessionTest, Ended)]).
Proof.
  intros Hin. rewrite handle_eq in Hin |- *. rewrite app_stack_at_session_test in Hin |- *.
  apply (called_layer app ext r _ (route GET "/api/session-test" StSessionTest)) in Hin
    as (cx1 & trA & HrunA & _ & Hsel & Hrun & _ & (st & b & cx2 & Hh)).
  2:{ rewrite !Forall_app. repeat split;
        auto using before_parsers_normal, parsers_normal, logging_normal.
      repeat constructor. }
  2:{ reflexivity. }
  2:{ discriminate. }
  2:{ unfold stack_before_parsers, stack_parsers, stack_logging.
      destruct (is_production (app_env app)); compute_done. }
  2:{ compute_done. }
  apply fallthrough_app in HrunA as (cxa & t1 & t2 & Hr1 & Hr2 & ->).
  2:{ rewrite !Forall_app. repeat split; auto using parsers_normal, logging_normal.
      repeat constructor. }
  apply fallthrough_app in Hr2 as (cxb & t3 & t4 & Hr3 & Hr4 & ->).
  2:{ rewrite !Forall_app. repeat split; auto using logging_normal. repeat constructor. }
  change ([use StSession] ++ stack_logging app) with (use StSession :: stack_logging app) in Hr4.
  rewrite run_cons_use in Hr4. cbn [stage_handler] in Hr4.
  destruct (session_stage app r cxb) as [cxs|e cxs|st' b' cxs] eqn:Hsess.
  2:{ rewrite run_layers_error_skip in Hr4 by apply logging_normal. discriminate. }
  2:{ discriminate. }
  apply prepend_unhandled in Hr4 as (t5 & Hr5 & ->).
  assert (Hcx1 : cx1 = cxs).
  { apply (fallthrough_invariant app ext r (fun cx => cx = cxs) (stack_logging app)
             (logging_normal app)) with (cx := cxs) (tr := t5); [| reflexivity | exact Hr5].
    intros l c1 c2 Hl -> Hn. eapply logging_keeps; eauto. }
  subst cx1.
  destruct (before_parsers_frame app ext r srv cxa t1 Hr1) as (_ & Hsa & Hma).
  simpl in Hsa, Hma.
  assert (Hb : cx_session cxb = None /\ srv_sessions (cx_server cxb) = srv_sessions srv).
  { apply (fallthrough_invariant app ext r
             (fun cx => cx_session cx = None
                        /\ srv_sessions (cx_server cx) = srv_sessions srv)
             stack_parsers parsers_normal) with (cx := cxa) (tr := t3);
      [| split; assumption | exact Hr3].
    intros l c1 c2 Hl [Hs Hm] Hn.
    destruct (parsers_keep_session l c1 c2 Hl Hn) as [Hs' Hm']. split; congruence. }
  destruct Hb as [Hsb Hmb].
  simpl in Hh.
  exists cxb, cxs, (t1 ++ t3 ++ [(StSession, Continued)] ++ t5), st, b, cx2.
  repeat split; try assumption.
  rewrite Hrun, (run_cons_selected app ext r) by (exact Hsel || discriminate).
  cbn [layer_stage route stage_handler]. rewrite Hh. reflexivity.
Qed.

Lemma session_stage_generates (cxb cxs : Ctx) :
  cx_session cxb = None -> srv_sessions (cx_server cxb) = srv_sessions srv ->
  fresh_session srv r ->
  session_stage app r cxb = Next cxs ->
  cx_session cxs =
  Some (mkReqSession (req_genid r) empty_session empty_session false (req_now r + maxAge)).
Proof.
  intros Hs Hm Hfresh. unfold session_stage, fresh_session in *. rewrite Hs, Hm.
  destruct (req_sid r) as [sid|]; [| now intros [= <-]].
  destruct (srv_sessions srv !! sid) as [st|]; [| now intros [= <-]].
  apply Z.leb_le in Hfresh. rewrite Hfresh. now intros [= <-].
Qed.

Lemma session_stage_loads (cxb cxs : Ctx) (sid : string) (st : StoredSession) :
  cx_session cxb = None -> srv_sessions (cx_server cxb) = srv_sessions srv ->
  req_sid r = Some sid -> srv_sessions srv !! sid = Some st ->
  req_now r < stored_expires st ->
  session_stage app r cxb = Next cxs ->
  cxs = cx_set_session
          (Some (mkReqSession sid (stored_data st) (stored_data st) true (stored_expires st)))
          cxb.
Proof.
  intros Hs Hm Hsid Hst Hlt. unfold session_stage. rewrite Hs, Hm, Hsid, Hst.
  assert (Hle : (stored_expires st <=? req_now r) = false) by (apply Z.leb_gt; lia).
  rewrite Hle. now intros [= <-].
Qed.

Lemma session_stage_session (cxb cxs : Ctx) :
  cx_session cxb = None -> srv_sessions (cx_server cxb) = srv_sessions srv ->
  session_stage app r cxb = Next cxs ->
  exists rs,
    cx_session cxs = Some rs
    /\ (rs_from_store rs = false -> rs_original rs = empty_session)
    /\ (rs_from_store rs = true ->
        exists st, srv_sessions (cx_server cxs) !! rs_id rs = Some st
                   /\ stored_data st = rs_original rs)
    /\ (fresh_session srv r -> rs_id rs = req_genid r /\ rs_data rs = empty_session)
    /\ (forall sid st, req_sid r = Some sid -> srv_sessions srv !! sid = Some st ->
          req_now r < stored_expires st ->
          rs_id rs = sid /\ rs_data rs = stored_data st).
Proof.
  intros Hs Hm Hstage.
  pose proof Hstage as Hcases. unfold session_stage in Hcases. rewrite Hs in Hcases.
  cbv zeta in Hcases. rewrite Hm in Hcases. unfold fresh_session.
  destruct (req_sid r) as [sid|] eqn:Hsid.
  2:{ injection Hcases as <-. eexists. split; [reflexivity |]. simpl.
      split; [reflexivity |]. split; [discriminate |].
      split; [intros _; split; reflexivity | intros ? ? [=]]. }
  destruct (srv_sessions srv !! sid) as [st|] eqn:Hst.
  2:{ injection Hcases as <-. eexists. split; [reflexivity |]. simpl.
      split; [reflexivity |]. split; [discriminate |].
      split; [intros _; split; reflexivity |].
      intros sid' st' [= <-] Hst'. rewrite Hst in Hst'. discriminate. }
  destruct (stored_expires st <=? req_now r) eqn:Hexp.
  - injection Hcases as <-. eexists. split; [reflexivity |]. simpl.
    apply Z.leb_le in Hexp.
    split; [reflexivity |]. split; [discriminate |].
    split; [intros _; split; reflexivity |].
    intros sid' st' [= <-] Hst'. rewrite Hst in Hst'. injection Hst' as <-. lia.
  - injection Hcases as <-. eexists. split; [reflexivity |]. simpl.
    apply Z.leb_gt in Hexp.
    split; [discriminate |]. split.
    { intros _. exists st. split; [| reflexivity]. now rewrite Hm. }
    split; [intros Hle; lia |].
    intros sid' st' [= <-] Hst' _. rewrite Hst in Hst'. injection Hst' as <-.
    split; reflexivity.
Qed.

(** What one served call of the endpoint returns and leaves in the store. *)
Lemma session_test_result :
  (StSessionTest, Ended) ∈ run_trace (handle app ext srv r) ->
  exists rs headers cx2 pre,
    let d := bump_views (rs_data rs) in
    handle app ext srv r =
      Sent (mkResponse 200 headers
              (session_test_body (default 0 (sess_views d)) (rs_id rs) d (rs_expires rs)))
        cx2 (pre ++ [(StSessionTest, Ended)])
    /\ srv_sessions (server_after app r (handle app ext srv r)) !! rs_id rs =
       Some (mkStoredSession d (req_now r + maxAge))
    /\ (fresh_session srv r -> rs_id rs = req_genid r /\ rs_data rs = empty_session)
    /\ (forall sid st, req_sid r = Some sid -> srv_sessions srv !! sid = Some st ->
          req_now r < stored_expires st ->
          rs_id rs = sid /\ rs_data rs = stored_data st).
Proof.
  intros Hin.
  destruct (session_test_context Hin)
    as (cxb & cxs & pre & st & b & cx2 & Hsb & Hmb & Hstage & Hh & Hrun).
  destruct (session_stage_session cxb cxs Hsb Hmb Hstage)
    as (rs & Hrs & Hnew & Hold & Hfresh & Hload).
  unfold session_test_handler in Hh. rewrite Hrs in Hh. injection Hh as <- <- <-.
  eexists rs, _, _, pre. cbv zeta.
  split; [exact Hrun |]. split; [| split; assumption].
  rewrite Hrun. unfold server_after, session_end. simpl.
  destruct (decide (bump_views (rs_data rs) = rs_original rs)) as [Heq|Hne].
  - destruct (rs_from_store rs) eqn:Hfrom.
    + destruct (Hold eq_refl) as (st & Hst & Hdata). simpl.
      rewrite lookup_alter_eq, Hst. simpl. now rewrite Hdata, Heq.
    + exfalso. rewrite (Hnew eq_refl) in Heq. now apply bump_views_not_empty in Heq.
  - simpl. now rewrite lookup_insert_eq.
Qed.

End SessionTest.

(** C7. A call of [GET /api/session-test] that the endpoint serves is
    answered with status 200 and the JSON object of message, view count,
    session id and session object; the object is the body on the wire unless
    the method is HEAD, which the route serves too and which gets no body.
    With a fresh session the count is 1. When the next call presents the same
    session before it expires, the count is the previous one plus one, for a
    count from -2^53 to below 2^53, the range in which adding one to a
    number is exact. *)
Theorem C7_session_test (env0 : Env) (file : gmap string string) (ext : Collaborators)
    (srv : Server) (r1 r2 : Request) :
  let app := startup env0 file in
  let run1 := handle app ext srv r1 in
  let run2 := handle app ext (server_after app r1 run1) r2 in
  (StSessionTest, Ended) ∈ run_trace run1 ->
  exists n1 sid d1 exp1 headers1,
    let resp1 := mkResponse 200 headers1 (session_test_body n1 sid d1 exp1) in
    run_response run1 = Some resp1
    /\ wire_body r1 resp1
       = (if method_eqb (req_method r1) HEAD then NoBody else res_body resp1)
    /\ sess_views d1 = Some n1
    /\ (fresh_session srv r1 -> n1 = 1 /\ sid = req_genid r1)
    /\ ((StSessionTest, Ended) ∈ run_trace run2 ->
        req_sid r2 = Some sid ->
        req_now r2 < req_now r1 + 2 * 60 * 60 * 1000 ->
        - 2 ^ 53 <= n1 < 2 ^ 53 ->
        exists d2 exp2 headers2,
          let resp2 := mkResponse 200 headers2 (session_test_body (n1 + 1) sid d2 exp2) in
          run_response run2 = Some resp2
          /\ wire_body r2 resp2
             = (if method_eqb (req_method r2) HEAD then NoBody else res_body resp2)
          /\ sess_views d2 = Some (n1 + 1)).
Proof.
  intros app run1 run2 Hin1. subst run1 run2.
  destruct (session_test_result app ext srv r1 Hin1)
    as (rs1 & h1 & cx1 & pre1 & Hrun1 & Hstore1 & Hfresh1 & _).
  cbv zeta in Hrun1.
  destruct (bump_views_some (rs_data rs1)) as (n1 & Hn1).
  exists n1, (rs_id rs1), (bump_views (rs_data rs1)), (rs_expires rs1), h1.
  rewrite Hn1 in Hrun1. simpl in Hrun1.
  cbv zeta. split; [now rewrite Hrun1 |].
  split; [unfold wire_body; simpl; now destruct (method_eqb (req_method r1) HEAD) |].
  split; [exact Hn1 |]. split.
  - intros Hf. destruct (Hfresh1 Hf) as [Hid Hdata]. split; [| exact Hid].
    rewrite Hdata, bump_views_fresh in Hn1. simpl in Hn1. congruence.
  - intros Hin2 Hsid Hnow Hsafe.
    destruct (session_test_result app ext _ r2 Hin2)
      as (rs2 & h2 & cx2 & pre2 & Hrun2 & _ & _ & Hload2).
    cbv zeta in Hrun2.
    destruct (Hload2 _ _ Hsid Hstore1) as [Hid2 Hdata2].
    { simpl. exact Hnow. }
    simpl in Hdata2.
    assert (Hn2 : sess_views (bump_views (rs_data rs2)) = Some (n1 + 1)).
    { rewrite Hdata2. now apply bump_views_next. }
    exists (bump_views (rs_data rs2)), (rs_expires rs2), h2.
    rewrite Hrun2, Hn2, Hid2. simpl. split; [reflexivity |].
    split; [| reflexivity].
    unfold wire_body; simpl; now destruct (method_eqb (req_method r2) HEAD).
Qed.

Lemma C7_session_test_witness :
  let r1 := sample_request GET "/api/session-test" None in
  let r2 := mkRequest GET "/api/session-test" None [] None (Some "sid-1") "203.0.113.7" []
              60000 "sid-2" (JNum 71) true in
  let run1 := handle dev_app pass_through (fresh_server dev_app) r1 in
  let run2 := handle dev_app pass_through (server_after dev_app r1 run1) r2 in
  exists d exp headers,
    run_response run2 = Some (mkResponse 200 headers (session_test_body 2 "sid-1" d exp)).
Proof.
  intros r1 r2 run1 run2.
  assert (H1 : (StSessionTest, Ended) ∈ run_trace run1) by (vm_compute; set_solver).
  assert (H2 : (StSessionTest, Ended) ∈ run_trace run2) by (vm_compute; set_solver).
  pose proof (C7_session_test ∅ ∅ pass_through (fresh_server dev_app) r1 r2) as Hthm.
  cbv zeta in Hthm.
  destruct (Hthm H1) as (n1 & sid & d1 & exp1 & headers1 & Hresp & _ & _ & Hfresh & Hnext).
  destruct (Hfresh I) as [-> ->].
  destruct (Hnext H2 eq_refl) as (d2 & exp2 & headers2 & Hresp2 & _);
    [reflexivity | lia |].
  exists d2, exp2, headers2. exact Hresp2.
Defined.

(** ** Deployment mode *)

(** C4. The app's proxy trust is decided by the flag as the process
    environment has it before the .env file is loaded (line 21), the session
    and cookie settings by the flag after the file is loaded (line 137). With
    no NODE_ENV in the process environment and NODE_ENV=production in the
    .env file, the server runs in production mode: the session cookie is
    secure, its cross-site policy is 'none', its domain is the production
    domain and the session stage trusts the proxy, but the app does not. *)
Theorem C4_trust_proxy_read_before_dotenv :
  (let app := startup ∅ {[ "NODE_ENV" := "production" ]} in
   let cfg := app_session app in
   is_production (app_env app) = true
   /\ cookie_secure (sc_cookie cfg) = SecureAlways
   /\ cookie_sameSite (sc_cookie cfg) = "none"
   /\ cookie_domain (sc_cookie cfg) = ".homeswift-ai.vercel.app"
   /\ sc_proxy cfg = true
   /\ app_trust_proxy app = None)
  /\ (forall (env0 : Env) (file : gmap string string),
        let app := startup env0 file in
        let cfg := app_session app in
        app_env app = dotenv_config file env0
        /\ app_trust_proxy app = (if is_production env0 then Some 1 else None)
        /\ (if is_production (app_env app) then
              cookie_secure (sc_cookie cfg) = SecureAlways
              /\ cookie_sameSite (sc_cookie cfg) = "none"
              /\ cookie_domain (sc_cookie cfg) = ".homeswift-ai.vercel.app"
              /\ sc_proxy cfg = true
            else
              cookie_secure (sc_cookie cfg) = SecureAuto
              /\ cookie_sameSite (sc_cookie cfg) = "lax"
              /\ cookie_domain (sc_cookie cfg) = "localhost"
              /\ sc_proxy cfg = false)).
Proof.
  split; [vm_compute; repeat split |].
  intros env0 file app cfg. subst app cfg. unfold startup, sessionConfig.
  cbn [app_env app_session app_trust_proxy sc_cookie sc_proxy cookie_secure cookie_sameSite
       cookie_domain].
  split; [reflexivity |]. split; [reflexivity |].
  destruct (is_production (dotenv_config file env0)); repeat split.
Qed.

(** ** Session store *)

Lemma MemoryStore_ignores_options (o1 o2 : MemoryStoreOptions) :
  MemoryStore_new o1 = MemoryStore_new o2.
Proof. reflexivity. Qed.

(** C5. The store is built with a check period of 15 minutes, which its
    constructor does not read. A session written at time 1000 expires at
    7201000; three hours after it was written, and after a request of another
    client has gone through the session stage, the expired entry is still in
    the store. *)
Lemma C5_expired_session_stays :
  let r1 := sample_request GET "/api/session-test" None in
  let srv1 := server_after dev_app r1 (handle dev_app pass_through (fresh_server dev_app) r1) in
  let srv2 := server_after dev_app later_request
                (handle dev_app pass_through srv1 later_request) in
  checkPeriod (sc_store_options (app_session dev_app)) = 15 * 60 * 1000
  /\ srv_sessions srv1 !! "sid-1" = Some (mkStoredSession (mkSessionData (Some 1) []) 7201000)
  /\ 7201000 + 15 * 60 * 1000 < req_now later_request
  /\ srv_sessions srv2 !! "sid-1" = Some (mkStoredSession (mkSessionData (Some 1) []) 7201000).
Proof. vm_compute. repeat split; reflexivity. Qed.

(** ** Rate limiter *)

Section Limiter.

Variable app : App.

Local Abbreviation opts := (app_limiter app).

Lemma limiter_stage_counts (r : Request) (cx : Ctx) (n reset : Z) :
  srv_hits (cx_server cx) !! req_ip app r = Some (n, reset) ->
  req_now r < reset ->
  let cx' := cx_set_hits (<[req_ip app r := (n + 1, reset)]> (srv_hits (cx_server cx))) cx in
  limiter_stage app r cx =
  if rl_max opts <? n + 1 then Send 429 (JsonBody (rl_message opts)) cx' else Next cx'.
Proof.
  intros Hhits Hnow. unfold limiter_stage, limiter_increment. rewrite Hhits.
  assert (Hle : (reset <=? req_now r) = false) by (apply Z.leb_gt; lia).
  now rewrite Hle.
Qed.

Lemma limiter_stage_opens (r : Request) (cx : Ctx) :
  window_closed (srv_hits (cx_server cx)) (req_ip app r) (req_now r) ->
  let cx' := cx_set_hits
               (<[req_ip app r := (1, req_now r + rl_windowMs opts)]> (srv_hits (cx_server cx)))
               cx in
  limiter_stage app r cx =
  if rl_max opts <? 1 then Send 429 (JsonBody (rl_message opts)) cx' else Next cx'.
Proof.
  unfold window_closed, limiter_stage, limiter_increment.
  destruct (srv_hits (cx_server cx) !! req_ip app r) as [[n reset]|]; [| reflexivity].
  intros Hle. apply Z.leb_le in Hle. now rewrite Hle.
Qed.

(** Within an open window the i-th further request sees the count n + i. *)
Lemma limiter_series_counts (key : string) (reset : Z) (rs : list Request) :
  forall (cx : Ctx) (n : Z),
    srv_hits (cx_server cx) !! key = Some (n, reset) ->
    Forall (fun r' => req_ip app r' = key /\ req_now r' < reset) rs ->
    forall (i : nat) (o : Outcome),
      limiter_series app cx rs !! i = Some o ->
      (n + Z.of_nat i + 1 <= rl_max opts -> exists cx', o = Next cx')
      /\ (rl_max opts < n + Z.of_nat i + 1 ->
          exists cx', o = Send 429 (JsonBody (rl_message opts)) cx').
Proof.
  induction rs as [|r rs IH]; intros cx n Hhits Hall i o Hi; [discriminate |].
  apply Forall_cons in Hall as [[Hkey Hnow] Hall]. subst key.
  pose proof (limiter_stage_counts r cx n reset Hhits Hnow) as Hstage.
  cbv zeta in Hstage. simpl in Hi. destruct i as [|i].
  - injection Hi as <-. rewrite Hstage.
    destruct (Z.ltb_spec (rl_max opts) (n + 1)); split; intros; try lia; eauto.
  - simpl in Hi.
    specialize (IH (outcome_ctx (limiter_stage app r cx)) (n + 1)).
    destruct (IH) with (i := i) (o := o) as [Hpass Hblock]; try assumption.
    + rewrite Hstage. destruct (rl_max opts <? n + 1); simpl; apply lookup_insert_eq.
    + split; intros; [apply Hpass | apply Hblock]; lia.
Qed.

Lemma limiter_window (r : Request) (rs : list Request) (cx : Ctx) :
  window_closed (srv_hits (cx_server cx)) (req_ip app r) (req_now r) ->
  Forall (fun r' => req_ip app r' = req_ip app r
                    /\ req_now r' < req_now r + rl_windowMs opts) rs ->
  forall (i : nat) (o : Outcome),
    limiter_series app cx (r :: rs) !! i = Some o ->
    (Z.of_nat i < rl_max opts -> exists cx', o = Next cx')
    /\ (rl_max opts <= Z.of_nat i ->
        exists cx', o = Send 429 (JsonBody (rl_message opts)) cx').
Proof.
  intros Hclosed Hall i o Hi.
  pose proof (limiter_stage_opens r cx Hclosed) as Hstage. cbv zeta in Hstage.
  simpl in Hi. destruct i as [|i].
  - injection Hi as <-. rewrite Hstage.
    destruct (Z.ltb_spec (rl_max opts) 1); split; intros; try lia; eauto.
  - simpl in Hi.
    destruct (limiter_series_counts (req_ip app r) (req_now r + rl_windowMs opts) rs
                (outcome_ctx (limiter_stage app r cx)) 1) with (i := i) (o := o)
      as [Hpass Hblock]; try assumption.
    + rewrite Hstage. destruct (rl_max opts <? 1); simpl; apply lookup_insert_eq.
    + split; intros; [apply Hpass | apply Hblock]; lia.
Qed.

End Limiter.

Lemma parseInt_or_unset (d : Z) : parseInt_or None d = d.
Proof. reflexivity. Qed.

Lemma parseInt_or_set (s : string) (n d : Z) :
  parseInt s = Some n -> n <> 0 -> parseInt_or (Some s) d = n.
Proof.
  intros Hs Hn. unfold parseInt_or. simpl. rewrite Hs.
  destruct (Z.eqb_spec n 0); [contradiction | reflexivity].
Qed.

(** C6. The window lasts 15 minutes and the ceiling is 100 requests unless
    the environment gives other values. From the request that opens a
    client's window, the requests of that client within the window pass while
    their number is at most the ceiling; the next one, and every later one in
    the window, gets status 429 with the rate-limit payload, which is neither
    the not-found payload nor one of the error handler's. A request that
    comes once the window has elapsed is counted as the first of a new
    window. *)
Theorem C6_rate_limiter (env0 : Env) (file : gmap string string) :
  let app := startup env0 file in
  let env := app_env app in
  let opts := app_limiter app in
  (env !! "RATE_LIMIT_WINDOW_MS" = None -> rl_windowMs opts = 15 * 60 * 1000)
  /\ (env !! "RATE_LIMIT_MAX_REQUESTS" = None -> rl_max opts = 100)
  /\ (forall s n, env !! "RATE_LIMIT_WINDOW_MS" = Some s -> parseInt s = Some n ->
        n <> 0 -> rl_windowMs opts = n)
  /\ (forall s n, env !! "RATE_LIMIT_MAX_REQUESTS" = Some s -> parseInt s = Some n ->
        n <> 0 -> rl_max opts = n)
  /\ (forall cx r rs,
        window_closed (srv_hits (cx_server cx)) (req_ip app r) (req_now r) ->
        Forall (fun r' => req_ip app r' = req_ip app r
                          /\ req_now r' < req_now r + rl_windowMs opts) rs ->
        forall (i : nat) (o : Outcome),
          limiter_series app cx (r :: rs) !! i = Some o ->
          (Z.of_nat i < rl_max opts -> exists cx', o = Next cx')
          /\ (rl_max opts <= Z.of_nat i -> exists cx', o = Send 429 too_many_requests cx'))
  /\ (forall cx r n reset,
        srv_hits (cx_server cx) !! req_ip app r = Some (n, reset) ->
        reset <= req_now r -> 1 <= rl_max opts ->
        exists cx',
          limiter_stage app r cx = Next cx'
          /\ srv_hits (cx_server cx') !! req_ip app r
             = Some (1, req_now r + rl_windowMs opts))
  /\ too_many_requests <> JsonBody not_found_body
  /\ (forall e, too_many_requests <> JsonBody (global_error_body app e)).
Proof.
  intros app env opts.
  assert (Hw : rl_windowMs opts
               = parseInt_or (env !! "RATE_LIMIT_WINDOW_MS") (15 * 60 * 1000))
    by reflexivity.
  assert (Hm : rl_max opts = parseInt_or (env !! "RATE_LIMIT_MAX_REQUESTS") 100)
    by reflexivity.
  assert (Hmsg : JsonBody (rl_message opts) = too_many_requests) by reflexivity.
  split; [intros Hunset; now rewrite Hw, Hunset |].
  split; [intros Hunset; now rewrite Hm, Hunset |].
  split; [intros s n Hset Hs Hn; rewrite Hw, Hset; now apply parseInt_or_set |].
  split; [intros s n Hset Hs Hn; rewrite Hm, Hset; now apply parseInt_or_set |].
  split.
  { intros cx r rs Hclosed Hall i o Hi. rewrite <- Hmsg.
    exact (limiter_window app r rs cx Hclosed Hall i o Hi). }
  split.
  { intros cx r n reset Hhits Hreset Hmax.
    assert (Hclosed : window_closed (srv_hits (cx_server cx)) (req_ip app r) (req_now r))
      by (unfold window_closed; now rewrite Hhits).
    pose proof (limiter_stage_opens app r cx Hclosed) as Hstage.
    cbv zeta in Hstage. rewrite Hstage.
    destruct (Z.ltb_spec (rl_max (app_limiter app)) 1); [unfold opts in Hmax; lia |].
    eexists. split; [reflexivity |]. simpl. apply lookup_insert_eq. }
  split; [discriminate |].
  intros e. unfold too_many_requests, global_error_body, json_object.
  destruct (is_production (app_env app)); simpl; discriminate.
Qed.

Lemma C6_rate_limiter_witness :
  let app := startup {[ "RATE_LIMIT_MAX_REQUESTS" := "2" ]} ∅ in
  let r := sample_request GET "/health" None in
  rl_windowMs (app_limiter app) = 900000
  /\ rl_max (app_limiter app) = 2
  /\ exists cx1 cx2 cx3,
       limiter_series app (initial_ctx (fresh_server app)) [r; r; r]
       = [Next cx1; Next cx2; Send 429 too_many_requests cx3].
Proof.
  intros app r.
  pose proof (C6_rate_limiter {[ "RATE_LIMIT_MAX_REQUESTS" := "2" ]} ∅) as Hthm.
  cbv zeta in Hthm. fold app in Hthm.
  destruct Hthm as (Hwindow & _ & _ & Hmax & Hseries & _).
  assert (Hw : rl_windowMs (app_limiter app) = 900000) by (apply Hwindow; reflexivity).
  assert (Hm : rl_max (app_limiter app) = 2)
    by (apply (Hmax "2" 2); [reflexivity | reflexivity | lia]).
  split; [exact Hw |]. split; [exact Hm |].
  set (cx := initial_ctx (fresh_server app)).
  assert (Hclosed : window_closed (srv_hits (cx_server cx)) (req_ip app r) (req_now r))
    by exact I.
  assert (Hall : Forall (fun r' => req_ip app r' = req_ip app r
                                   /\ req_now r' < req_now r + rl_windowMs (app_limiter app))
                   [r; r])
    by (repeat constructor; rewrite Hw; simpl; lia).
  pose proof (Hseries cx r [r; r] Hclosed Hall) as Hat.
  destruct (limiter_series app cx [r; r; r]) as [|o1 [|o2 [|o3 [|o4 os]]]] eqn:Hos;
    try discriminate Hos.
  destruct (Hat 0%nat o1 eq_refl) as [[cx1 ->] _]; [rewrite Hm; reflexivity |].
  destruct (Hat 1%nat o2 eq_refl) as [[cx2 ->] _]; [rewrite Hm; reflexivity |].
  destruct (Hat 2%nat o3 eq_refl) as [_ [cx3 ->]]; [rewrite Hm; simpl; lia |].
  exists cx1, cx2, cx3. reflexivity.
Defined.
